(** * UserOp Hash Verifier: the normaliser, the call-data enricher and the
      type renderer of [src/App.tsx], embedded and verified.

    The development follows the TypeScript source function by function.
    JavaScript strings are represented by [string]; each [ascii] stands
    for one UTF-16 code unit in the range U+0000..U+00FF.  Platform
    built-ins ([String.prototype.trim], [BigInt], [Promise.all], ...) are
    modelled after ECMA-262 and viem's [isHex] after its documented
    behaviour.  [JSON.parse], [whatsabi.autoload] and viem's
    [decodeFunctionData] are parameters: every statement holds for any
    parser, resolver and decoder. *)

From Stdlib Require Import ZArith Ascii String List Bool Lia Permutation.
From stdpp Require Import base option list sorting strings pretty.

Local Open Scope Z_scope.
Set Warnings "-register-all".

(* ================================================================== *)
(** * JavaScript primitives *)
(* ================================================================== *)

Module JS.

(** ** Completion records: a call either returns or throws. *)

Inductive exn : Type :=
| SyntaxError
| TypeError
| Error (message : string).

Inductive completion (A : Type) : Type :=
| Normal (a : A)
| Throw (e : exn).
Arguments Normal {A} a.
Arguments Throw {A} e.

(** Sequencing: a thrown exception skips the rest of the block.  The
    instances give [x ← m; k] and [mret]. *)
#[global] Instance completion_ret : MRet completion := @Normal.
#[global] Instance completion_bind : MBind completion := λ A B k m,
  match m with
  | Normal a => k a
  | Throw e => Throw e
  end.

(** [try { ... } catch { return null }] *)
Definition try_or_null {A} (m : completion A) : option A :=
  match m with
  | Normal a => Some a
  | Throw _ => None
  end.

(** ** Code units *)

Definition code (c : ascii) : N := N_of_ascii c.

Definition between (lo hi : N) (c : ascii) : bool :=
  ((lo <=? code c) && (code c <=? hi))%N.

(** WhiteSpace and LineTerminator code points below U+0100:
    TAB, LF, VT, FF, CR, SP and NBSP. *)
Definition isWhiteSpace (c : ascii) : bool :=
  between 9 13 c || (code c =? 32)%N || (code c =? 160)%N.

(** ** String.prototype.trim *)

Fixpoint trimStart (s : string) : string :=
  match s with
  | EmptyString => EmptyString
  | String c s' => if isWhiteSpace c then trimStart s' else s
  end.

Fixpoint trimEnd (s : string) : string :=
  match s with
  | EmptyString => EmptyString
  | String c s' =>
      match trimEnd s' with
      | EmptyString => if isWhiteSpace c then EmptyString else String c EmptyString
      | r => String c r
      end
  end.

Definition trim (s : string) : string := trimEnd (trimStart s).

(** ** String.prototype.toLowerCase on U+0000..U+00FF: the letters A-Z and
       the Latin-1 capitals U+00C0..U+00DE (without the multiplication sign
       U+00D7) move up by 32; every other code unit is kept. *)

Definition toLowerCaseUnit (c : ascii) : ascii :=
  if between 65 90 c || (between 192 222 c && negb (code c =? 215)%N)
  then ascii_of_N (code c + 32)
  else c.

Fixpoint toLowerCase (s : string) : string :=
  match s with
  | EmptyString => EmptyString
  | String c s' => String (toLowerCaseUnit c) (toLowerCase s')
  end.

(** ** Truthiness of a string: [!s] is true exactly for the empty string. *)
Definition truthy_string (s : string) : bool :=
  match s with
  | EmptyString => false
  | _ => true
  end.

(** [s.endsWith("n")] *)
Fixpoint endsWith_n (s : string) : bool :=
  match s with
  | EmptyString => false
  | String c EmptyString => (code c =? 110)%N
  | String _ s' => endsWith_n s'
  end.

(** [s.slice(0, -1)]: everything but the last code unit. *)
Fixpoint slice_0_m1 (s : string) : string :=
  match s with
  | EmptyString => EmptyString
  | String _ EmptyString => EmptyString
  | String c s' => String c (slice_0_m1 s')
  end.

(** [arr.join(sep)] on already rendered elements. *)
Fixpoint join (sep : string) (l : list string) : string :=
  match l with
  | [] => ""
  | [x] => x
  | x :: l' => x +:+ sep +:+ join sep l'
  end.

(** ** StringToBigInt (ECMA-262 7.1.14) and the [BigInt(string)] call *)

(** The value of a code unit read as a digit, for radix up to 16. *)
Definition digitValue (c : ascii) : option Z :=
  if between 48 57 c then Some (Z.of_N (code c) - 48)
  else if between 97 102 c then Some (Z.of_N (code c) - 87)
  else if between 65 70 c then Some (Z.of_N (code c) - 55)
  else None.

Fixpoint digitsFrom (radix acc : Z) (s : string) : option Z :=
  match s with
  | EmptyString => Some acc
  | String c s' =>
      match digitValue c with
      | Some d => if d <? radix then digitsFrom radix (acc * radix + d) s' else None
      | None => None
      end
  end.

(** One or more digits of the radix. *)
Definition digits (radix : Z) (s : string) : option Z :=
  match s with
  | EmptyString => None
  | _ => digitsFrom radix 0 s
  end.

(** The radix announced by the second code unit of a 0x/0o/0b prefix. *)
Definition radixOfPrefix (c : ascii) : option Z :=
  if Ascii.eqb c "x" || Ascii.eqb c "X" then Some 16
  else if Ascii.eqb c "o" || Ascii.eqb c "O" then Some 8
  else if Ascii.eqb c "b" || Ascii.eqb c "B" then Some 2
  else None.

(** NonDecimalIntegerLiteral: 0x/0X, 0o/0O or 0b/0B followed by digits;
    [None] when the text carries no such prefix. *)
Definition nonDecimalPrefix (text : string) : option (Z * string) :=
  match text with
  | String c0 (String c1 ds) =>
      if Ascii.eqb c0 "0" then (λ r, (r, ds)) <$> radixOfPrefix c1 else None
  | _ => None
  end.

(** SignedInteger: decimal digits with an optional sign. *)
Definition SignedInteger (text : string) : option Z :=
  match text with
  | String c ds =>
      if Ascii.eqb c "+" then digits 10 ds
      else if Ascii.eqb c "-" then Z.opp <$> digits 10 ds
      else digits 10 text
  | EmptyString => None
  end.

(** StrIntegerLiteral: a signed decimal literal, or an unsigned literal
    with prefix 0x/0X, 0o/0O or 0b/0B. *)
Definition StrIntegerLiteral (text : string) : option Z :=
  match nonDecimalPrefix text with
  | Some (radix, ds) => digits radix ds
  | None => SignedInteger text
  end.

(** StringIntegerLiteral: optional white space around an optional literal;
    the empty literal has value 0. *)
Definition StringToBigInt (str : string) : option Z :=
  match trim str with
  | EmptyString => Some 0
  | text => StrIntegerLiteral text
  end.

Definition BigInt (str : string) : completion Z :=
  match StringToBigInt str with
  | Some z => Normal z
  | None => Throw SyntaxError
  end.

End JS.

Export JS.

(* ================================================================== *)
(** * viem *)
(* ================================================================== *)

Module Viem.

Definition isHexDigit (c : ascii) : bool :=
  between 48 57 c || between 97 102 c || between 65 70 c.

Fixpoint allHexDigits (s : string) : bool :=
  match s with
  | EmptyString => true
  | String c s' => isHexDigit c && allHexDigits s'
  end.

(** [isHex(value)] with the default [strict: true] on a string argument:
    the test [/^0x[0-9a-fA-F]*$/]. *)
Definition isHex (value : string) : bool :=
  match value with
  | String c0 (String c1 ds) => Ascii.eqb c0 "0" && Ascii.eqb c1 "x" && allHexDigits ds
  | _ => false
  end.

End Viem.

Export Viem.

(* ================================================================== *)
(** * App.tsx: field parsers *)
(* ================================================================== *)

(** [parseValue]: lines 156-169. *)
Definition parseValue (value : string) : completion Z :=
  let trimmed := trim value in
  if negb (truthy_string trimmed) then Normal 0
  else if isHex trimmed then BigInt trimmed
  else if endsWith_n trimmed then BigInt (slice_0_m1 trimmed)
  else BigInt trimmed.

(** [parseHexValue]: lines 171-176. *)
Definition parseHexValue (value : string) : completion string :=
  let trimmed := trim value in
  if negb (truthy_string trimmed) || String.eqb trimmed "0x" then Normal "0x"
  else if isHex trimmed then Normal trimmed
  else Throw (Error ("Invalid hex value: " +:+ value)).

(* ================================================================== *)
(** * ABI descriptions (abitype) *)
(* ================================================================== *)

(** [AbiParameter]: [type] is required, [name] and [components] are
    optional keys. *)
Inductive AbiParameter : Type :=
  Build_AbiParameter {
    type : string;
    name : option string;
    components : option (list AbiParameter) }.

(** An item of an [Abi]: its [type] tag ("function", "event", ...), its
    [name] (constructors, fallbacks and unnamed selectors have none) and
    its [inputs]. *)
Record AbiItem : Type := Build_AbiItem {
  item_type : string;
  item_name : option string;
  item_inputs : option (list AbiParameter) }.

Definition Abi : Type := list AbiItem.

(* ================================================================== *)
(** * JavaScript values *)
(* ================================================================== *)

(** The values that [JSON.parse] and [decodeFunctionData] hand to the
    application.  A Number is carried as its [Number::toString] rendering
    (IEEE doubles themselves are not modelled).  An object is the ordered
    list of its own properties.  [VDecodedCall] is the object literal of
    shape [DecodedCallWithTypes] that [enrichArgs] stores under the key
    [decodedCall]. *)
Inductive value : Type :=
| VUndefined
| VNull
| VBool (b : bool)
| VNumber (repr : string)
| VBigInt (z : Z)
| VString (s : string)
| VArray (elems : list value)
| VObject (props : list (string * value))
| VDecodedCall (functionName : string) (args : option (list value))
               (inputs : option (list AbiParameter)).

(** Own-property lookup; a missing key reads as [undefined]. *)
Fixpoint own_prop (props : list (string * value)) (key : string) : value :=
  match props with
  | [] => VUndefined
  | (k, v) :: props' => if String.eqb k key then v else own_prop props' key
  end.

Fixpoint has_own (props : list (string * value)) (key : string) : bool :=
  match props with
  | [] => false
  | (k, _) :: props' => String.eqb k key || has_own props' key
  end.

(** [{...obj, key: v}]: the own properties of [obj] in order, with [key]
    overwritten in place when it exists and appended otherwise. *)
Fixpoint set_prop (props : list (string * value)) (key : string) (v : value)
  : list (string * value) :=
  match props with
  | [] => [(key, v)]
  | (k, w) :: props' =>
      if String.eqb k key then (k, v) :: props'
      else (k, w) :: set_prop props' key v
  end.

(** [parsed.key] for the field names App.tsx reads (sender, nonce, ...);
    none of them is a property of a built-in prototype, so only own
    properties of objects answer.  Reading from [null] or [undefined]
    throws. *)
Definition Get (v : value) (key : string) : completion value :=
  match v with
  | VUndefined | VNull => Throw TypeError
  | VObject props => Normal (own_prop props key)
  | _ => Normal VUndefined
  end.

(** ToBoolean. *)
Definition truthy (v : value) : bool :=
  match v with
  | VUndefined | VNull => false
  | VBool b => b
  | VNumber repr => negb (String.eqb repr "0" || String.eqb repr "NaN")
  | VBigInt z => negb (z =? 0)
  | VString s => truthy_string s
  | VArray _ | VObject _ | VDecodedCall _ _ _ => true
  end.

(** [a || b] *)
Definition or_else (a b : value) : value := if truthy a then a else b.

(** [String(v)].  Arrays render through [join(",")], where [null] and
    [undefined] elements render as the empty string.  A plain object
    renders as "[object Object]" unless an own (hence non-callable)
    [toString] property shadows [Object.prototype.toString], in which
    case OrdinaryToPrimitive finds no primitive and throws. *)
Fixpoint ToString (v : value) : completion string :=
  match v with
  | VUndefined => Normal "undefined"
  | VNull => Normal "null"
  | VBool b => Normal (if b then "true" else "false")
  | VNumber repr => Normal repr
  | VBigInt z => Normal (pretty z)
  | VString s => Normal s
  | VArray elems =>
      ss ← (fix each (l : list value) : completion (list string) :=
              match l with
              | [] => Normal []
              | x :: l' =>
                  s ← match x with
                      | VUndefined | VNull => Normal ""
                      | _ => ToString x
                      end;
                  r ← each l';
                  Normal (s :: r)
              end) elems;
      Normal (join "," ss)
  | VObject props =>
      if has_own props "toString" then Throw TypeError
      else Normal "[object Object]"
  | VDecodedCall _ _ _ => Normal "[object Object]"
  end.

(* ================================================================== *)
(** * App.tsx: the UserOperation normaliser *)
(* ================================================================== *)

(** [UserOpV06]: lines 22-34.  The casts [as Address] are erased at run
    time, so [sender] holds whatever value was supplied. *)
Record UserOpV06 : Type := Build_UserOpV06 {
  sender : value;
  nonce : Z;
  initCode : string;
  callData : string;
  callGasLimit : Z;
  verificationGasLimit : Z;
  preVerificationGas : Z;
  maxFeePerGas : Z;
  maxPriorityFeePerGas : Z;
  paymasterAndData : string;
  signature : string }.

Inductive InputMode : Type := raw | fields.

(** A call [parseHexValue(v)] whose argument is not statically known to
    be a string: [value.trim()] throws a TypeError on anything else. *)
Definition parseHexValue_any (v : value) : completion string :=
  match v with
  | VString s => parseHexValue s
  | _ => Throw TypeError
  end.

(** [parseValue(String(v))] *)
Definition parseValue_String (v : value) : completion Z :=
  s ← ToString v; parseValue s.

Section Normalizer.

(** [JSON.parse]: [None] stands for a thrown SyntaxError. *)
Variable JSON_parse : string → option value.

(** The body of the [try] block of [parseUserOpFromRaw]; the object
    literal evaluates its properties in source order. *)
Definition parseUserOpFromRaw_body (raw_text : string) : completion UserOpV06 :=
  parsed ← match JSON_parse raw_text with
           | Some v => Normal v
           | None => Throw SyntaxError
           end;
  v_sender ← Get parsed "sender";
  v ← Get parsed "nonce"; f_nonce ← parseValue_String v;
  v ← Get parsed "initCode"; f_initCode ← parseHexValue_any v;
  v ← Get parsed "callData"; f_callData ← parseHexValue_any v;
  v ← Get parsed "callGasLimit"; f_callGasLimit ← parseValue_String v;
  v ← Get parsed "verificationGasLimit"; f_verificationGasLimit ← parseValue_String v;
  v ← Get parsed "preVerificationGas"; f_preVerificationGas ← parseValue_String v;
  v ← Get parsed "maxFeePerGas"; f_maxFeePerGas ← parseValue_String v;
  v ← Get parsed "maxPriorityFeePerGas"; f_maxPriorityFeePerGas ← parseValue_String v;
  v ← Get parsed "paymasterAndData"; f_paymasterAndData ← parseHexValue_any v;
  v ← Get parsed "signature"; f_signature ← parseHexValue_any v;
  Normal (Build_UserOpV06 v_sender f_nonce f_initCode f_callData f_callGasLimit
            f_verificationGasLimit f_preVerificationGas f_maxFeePerGas
            f_maxPriorityFeePerGas f_paymasterAndData f_signature).

(** [parseUserOpFromRaw]: lines 178-197. *)
Definition parseUserOpFromRaw (raw_text : string) : option UserOpV06 :=
  try_or_null (parseUserOpFromRaw_body raw_text).

(** The text inputs of the form (the [useQueryState] values). *)
Record FormState : Type := Build_FormState {
  inputMode : InputMode;
  rawInput : string;
  in_sender : string;
  in_nonce : string;
  in_initCode : string;
  in_callData : string;
  in_callGasLimit : string;
  in_verificationGasLimit : string;
  in_preVerificationGas : string;
  in_maxFeePerGas : string;
  in_maxPriorityFeePerGas : string;
  in_paymasterAndData : string;
  in_signature : string }.

(** The [try] block of the fields branch of [parsedUserOp]. *)
Definition parsedUserOp_fields (st : FormState) : completion UserOpV06 :=
  f_nonce ← parseValue (in_nonce st);
  f_initCode ← parseHexValue (in_initCode st);
  f_callData ← parseHexValue (in_callData st);
  f_callGasLimit ← parseValue (in_callGasLimit st);
  f_verificationGasLimit ← parseValue (in_verificationGasLimit st);
  f_preVerificationGas ← parseValue (in_preVerificationGas st);
  f_maxFeePerGas ← parseValue (in_maxFeePerGas st);
  f_maxPriorityFeePerGas ← parseValue (in_maxPriorityFeePerGas st);
  f_paymasterAndData ← parseHexValue (in_paymasterAndData st);
  f_signature ← parseHexValue (in_signature st);
  Normal (Build_UserOpV06 (VString (in_sender st)) f_nonce f_initCode f_callData
            f_callGasLimit f_verificationGasLimit f_preVerificationGas
            f_maxFeePerGas f_maxPriorityFeePerGas f_paymasterAndData f_signature).

(** [parsedUserOp]: lines 258-279. *)
Definition parsedUserOp (st : FormState) : option UserOpV06 :=
  match inputMode st with
  | raw => parseUserOpFromRaw (rawInput st)
  | fields => try_or_null (parsedUserOp_fields st)
  end.

End Normalizer.

(* ================================================================== *)
(** * App.tsx: hash comparison (lines 489-494 and 847-851) *)
(* ================================================================== *)

Definition normalizedExpectedHash (expectedHash : string) : string :=
  toLowerCase (trim expectedHash).

(** [computedHash?.toLowerCase()]; [None] is [undefined]. *)
Definition normalizedComputedHash (computedHash : option string) : option string :=
  toLowerCase <$> computedHash.

(** [hashesMatch], read as a condition. *)
Definition hashesMatch (expectedHash : string) (computedHash : option string) : bool :=
  truthy_string (normalizedExpectedHash expectedHash)
  && match normalizedComputedHash computedHash with
     | Some c => truthy_string c && String.eqb (normalizedExpectedHash expectedHash) c
     | None => false
     end.

(** The "Hash Comparison" section: rendered only under
    [normalizedExpectedHash && computedHash], and then showing the verdict. *)
Definition hashComparison (expectedHash : string) (computedHash : option string)
  : option bool :=
  if truthy_string (normalizedExpectedHash expectedHash)
     && match computedHash with Some c => truthy_string c | None => false end
  then Some (hashesMatch expectedHash computedHash)
  else None.

(* ================================================================== *)
(** * App.tsx: type-descriptor rendering *)
(* ================================================================== *)

(** [c.name || ""] *)
Definition name_or_empty (n : option string) : string :=
  match n with
  | Some s => s
  | None => ""
  end.

(** [formatAbiType]: lines 57-71.  The test
    ["components" in param && param.components] holds exactly when the key
    is present (an array is always truthy). *)
Fixpoint formatAbiType (param : AbiParameter) : string :=
  match param with
  | Build_AbiParameter ty _ (Some cs) =>
      let rendered :=
        join ", " (map (λ c, trim (formatAbiType c +:+ " " +:+ name_or_empty (name c))) cs) in
      if String.eqb ty "tuple" then "(" +:+ rendered +:+ ")"
      else if String.eqb ty "tuple[]" then "(" +:+ rendered +:+ ")[]"
      else ty
  | Build_AbiParameter ty _ None => ty
  end.

(* ================================================================== *)
(** * Promises *)
(* ================================================================== *)

(** The eventual state of a promise. *)
Inductive promise (A : Type) : Type :=
| Fulfilled (a : A)
| Rejected (e : exn)
| Pending.
Arguments Fulfilled {A} a.
Arguments Rejected {A} e.
Arguments Pending {A}.

(** One settlement seen by [Promise.all]: the resolve-element function of
    promise [i] stores its value in slot [i]; the first rejection rejects
    the aggregate, after which nothing changes. *)
Definition settle {A} (ps : list (promise A))
    (st : list (option A) * option exn) (i : nat) : list (option A) * option exn :=
  match st.2, ps !! i with
  | None, Some (Fulfilled v) => (<[i := Some v]> st.1, None)
  | None, Some (Rejected e) => (st.1, Some e)
  | _, _ => st
  end.

(** [Promise.all(ps)] when the promises settle in the order [order]:
    fulfilled with the slots once every slot is filled. *)
Definition promise_all {A} (order : list nat) (ps : list (promise A)) : promise (list A) :=
  match foldl (settle ps) (replicate (length ps) None, None) order with
  | (_, Some e) => Rejected e
  | (slots, None) =>
      match mapM id slots with
      | Some vs => Fulfilled vs
      | None => Pending
      end
  end.

(** The order in which [n] concurrent lookups complete when lookup [i]
    takes [latency i] units of time. *)
Definition settles_no_later (latency : nat → nat) (i j : nat) : Prop :=
  (latency i ≤ latency j)%nat.

#[global] Instance settles_no_later_dec latency i j :
  Decision (settles_no_later latency i j) := decide (latency i ≤ latency j)%nat.

Definition completion_order (latency : nat → nat) (n : nat) : list nat :=
  merge_sort (settles_no_later latency) (seq 0 n).

(* ================================================================== *)
(** * App.tsx: the call-data decoder and enricher (lines 315-411) *)
(* ================================================================== *)

(** The result of viem's [decodeFunctionData]; [args] is [undefined] for a
    function without inputs. *)
Record DecodedFunctionData : Type := Build_DecodedFunctionData {
  dfd_functionName : string;
  dfd_args : option (list value) }.

(** [DecodedCallWithTypes]: lines 73-77. *)
Record DecodedCallWithTypes : Type := Build_DecodedCallWithTypes {
  functionName : string;
  args : option (list value);
  inputs : option (list AbiParameter) }.

(** The two option sets [whatsabi.autoload] is called with: the top-level
    call passes the environment loaders and [followProxies: true], the
    nested call only the provider. *)
Inductive autoload_options : Type :=
| env_loaders_follow_proxies (chainId : Z)
| provider_only.

(** The predicate of both [find] calls:
    [item.type === "function" && item.name === functionName]. *)
Definition is_function_named (fn : string) (item : AbiItem) : bool :=
  String.eqb (item_type item) "function"
  && match item_name item with
     | Some n => String.eqb n fn
     | None => false
     end.

(** [abiFunction?.inputs] *)
Definition inputs_of (abiFunction : option AbiItem) : option (list AbiParameter) :=
  abiFunction ≫= item_inputs.

Section Decoder.

Variable Client : Type.

(** [whatsabi.autoload(address, options)], reduced to the [abi] key of its
    result ([None] when that is missing); the call may throw.  The awaited
    promise is taken to settle: a lookup that never answers is not
    represented. *)
Variable autoload : Client → value → autoload_options → completion (option Abi).

(** viem's [decodeFunctionData({abi, data})]; throws when no function of
    the ABI matches. *)
Variable decodeFunctionData : Abi → string → completion DecodedFunctionData.

(** [latency l i]: the time the [i]-th callback of [Promise.all] over the
    arguments [l] takes to settle. *)
Variable latency : list value → nat → nat.

Variable client : Client.

(** The [try] block of lines 368-390: [Some] is the annotated object,
    [None] the fall-through when the resolution has no ABI. *)
Definition decode_inner (props : list (string * value)) (target : value) (data : string)
  : completion (option value) :=
  r_abi ← autoload client target provider_only;
  match r_abi with
  | Some abi =>
      decodedInner ← decodeFunctionData abi data;
      let innerAbiFunction := find (is_function_named (dfd_functionName decodedInner)) abi in
      Normal (Some (VObject (set_prop props "decodedCall"
                (VDecodedCall (dfd_functionName decodedInner) (dfd_args decodedInner)
                   (inputs_of innerAbiFunction)))))
  | None => Normal None
  end.

(** Lines 360-367: the pair the nested decode runs on, when the object
    with own properties [props] passes the test
    [target && data && isHex(data) && data !== "0x"]. *)
Definition call_candidate (props : list (string * value)) : option (value * string) :=
  let target := or_else (own_prop props "target") (own_prop props "to") in
  let data := or_else (own_prop props "callData") (own_prop props "data") in
  match data with
  | VString d =>
      if truthy target && truthy data && isHex d && negb (String.eqb d "0x")
      then Some (target, d)
      else None
  | _ => None
  end.

(** Lines 358-396 for an argument that is a non-array object with own
    properties [props]; a caught exception is only logged. *)
Definition enrich_object (props : list (string * value)) : value :=
  match call_candidate props with
  | Some (target, d) =>
      match decode_inner props target d with
      | Normal (Some annotated) => annotated
      | Normal None => VObject props
      | Throw _ => VObject props
      end
  | None => VObject props
  end.

(** The callback [async (arg) => ...] of lines 354-397. *)
Fixpoint enrichArg (arg : value) : promise value :=
  match arg with
  | VArray elems =>
      match promise_all (completion_order (latency elems) (length elems))
              (map enrichArg elems) with
      | Fulfilled vs => Fulfilled (VArray vs)
      | Rejected e => Rejected e
      | Pending => Pending
      end
  | VObject props => Fulfilled (enrich_object props)
  | _ => Fulfilled arg
  end.

(** [enrichArgs]: lines 350-399. *)
Definition enrichArgs (args : list value) : promise (list value) :=
  promise_all (completion_order (latency args) (length args)) (map enrichArg args).

(** The [try] block of [queryFn], lines 326-406. *)
Definition queryFn_body (userOp : UserOpV06) (chainId : Z)
  : promise (option DecodedCallWithTypes) :=
  match autoload client (sender userOp) (env_loaders_follow_proxies chainId) with
  | Throw e => Rejected e
  | Normal None => Fulfilled None
  | Normal (Some abi) =>
      match decodeFunctionData abi (callData userOp) with
      | Throw e => Rejected e
      | Normal decoded =>
          let abiFunction := find (is_function_named (dfd_functionName decoded)) abi in
          let inputs := inputs_of abiFunction in
          match dfd_args decoded with
          | Some decoded_args =>
              match enrichArgs decoded_args with
              | Fulfilled args =>
                  Fulfilled (Some (Build_DecodedCallWithTypes
                                     (dfd_functionName decoded) (Some args) inputs))
              | Rejected e => Rejected e
              | Pending => Pending
              end
          | None =>
              Fulfilled (Some (Build_DecodedCallWithTypes
                                 (dfd_functionName decoded) None inputs))
          end
      end
  end.

End Decoder.

(** [queryFn]: lines 315-411; [client] is [None] when no chain is
    selected.  The [catch] turns a rejection into [null]. *)
Definition queryFn {Client : Type}
    (autoload : Client → value → autoload_options → completion (option Abi))
    (decodeFunctionData : Abi → string → completion DecodedFunctionData)
    (latency : list value → nat → nat)
    (client : option Client) (parsedUserOp : option UserOpV06) (chainId : Z)
  : promise (option DecodedCallWithTypes) :=
  match parsedUserOp, client with
  | Some userOp, Some cl =>
      if negb (truthy (sender userOp)) || negb (truthy_string (callData userOp))
         || String.eqb (callData userOp) "0x"
      then Fulfilled None
      else
        match queryFn_body Client autoload decodeFunctionData latency cl userOp chainId with
        | Rejected _ => Fulfilled None
        | settled => settled
        end
  | _, _ => Fulfilled None
  end.

(* ================================================================== *)
(** * Reference definitions written from the specification *)
(* ================================================================== *)

(** These definitions follow the wording of the specification, not the
    code; the theorems below compare them with the code. *)
Module Spec.

(** "a well-formed 0x-prefixed hex string of even length" *)
Definition evenLengthHex (s : string) : bool :=
  isHex s && Nat.even (String.length s).

(** "a 20-byte address": 0x followed by 40 hex digits. *)
Definition wellFormedAddress (s : string) : bool :=
  isHex s && (String.length s =? 42)%nat.

(** A decimal digit and a run of decimal digits. *)
Definition decimalDigit (c : ascii) : option Z :=
  if between 48 57 c then Some (Z.of_N (code c) - 48) else None.

Fixpoint decimalFrom (acc : Z) (s : string) : option Z :=
  match s with
  | EmptyString => Some acc
  | String c s' =>
      match decimalDigit c with
      | Some d => decimalFrom (10 * acc + d) s'
      | None => None
      end
  end.

(** "a decimal integer": one or more decimal digits, optionally signed. *)
Definition decimalInteger (s : string) : option Z :=
  match s with
  | EmptyString => None
  | String c ds =>
      if Ascii.eqb c "-" then
        match ds with EmptyString => None | _ => Z.opp <$> decimalFrom 0 ds end
      else if Ascii.eqb c "+" then
        match ds with EmptyString => None | _ => decimalFrom 0 ds end
      else decimalFrom 0 s
  end.

(** "a 0x-prefixed hex literal", "interpreted as hex". *)
Definition hexLiteral (s : string) : option Z :=
  match s with
  | String c0 (String c1 ds) =>
      if Ascii.eqb c0 "0" && Ascii.eqb c1 "x" then digits 16 ds else None
  | _ => None
  end.

(** The integer parsing rule of section 4.1, sentence by sentence. *)
Definition parseValue (value : string) : option Z :=
  let trimmed := trim value in
  match trimmed with
  | EmptyString => Some 0
  | _ =>
      match hexLiteral trimmed with
      | Some v => Some v
      | None =>
          if endsWith_n trimmed then decimalInteger (slice_0_m1 trimmed)
          else decimalInteger trimmed
      end
  end.

(** The integer parsing rule with its last two sentences amended: what
    is left after the hex test and the removal of a final "n" is an
    integer literal in the sense of [BigInt]: optional white space around
    nothing at all (value 0), around an unsigned literal with prefix
    0x/0X, 0o/0O or 0b/0B, or around an optionally signed decimal
    integer. *)
Definition afterPrefix (s : string) : string :=
  match s with
  | String _ (String _ r) => r
  | _ => EmptyString
  end.

Definition prefixedLiteral (s : string) : option (option Z) :=
  if String.prefix "0x" s || String.prefix "0X" s then Some (digits 16 (afterPrefix s))
  else if String.prefix "0o" s || String.prefix "0O" s then Some (digits 8 (afterPrefix s))
  else if String.prefix "0b" s || String.prefix "0B" s then Some (digits 2 (afterPrefix s))
  else None.

Definition integerLiteral (s : string) : option Z :=
  match trim s with
  | EmptyString => Some 0
  | text =>
      match prefixedLiteral text with
      | Some literal => literal
      | None => decimalInteger text
      end
  end.

Definition parseValue_amended (value : string) : option Z :=
  let trimmed := trim value in
  match trimmed with
  | EmptyString => Some 0
  | _ =>
      match hexLiteral trimmed with
      | Some v => Some v
      | None =>
          if endsWith_n trimmed then integerLiteral (slice_0_m1 trimmed)
          else integerLiteral trimmed
      end
  end.

(** The rendering rule of section 4.2: the base type name, except that a
    tuple renders as the parenthesised, comma-joined list of
    "<rendered component type> <component name>" (name omitted if absent)
    and an array of tuples as that rendering followed by "[]". *)
Definition isTupleArray (ty : string) : bool :=
  String.prefix "tuple[" ty.

Fixpoint formatAbiType (param : AbiParameter) : string :=
  match param with
  | Build_AbiParameter ty _ (Some cs) =>
      let component c :=
        match name c with
        | Some n => if truthy_string n then formatAbiType c +:+ " " +:+ n
                    else formatAbiType c
        | None => formatAbiType c
        end in
      let rendered := join ", " (map component cs) in
      if String.eqb ty "tuple" then "(" +:+ rendered +:+ ")"
      else if isTupleArray ty then "(" +:+ rendered +:+ ")[]"
      else ty
  | Build_AbiParameter ty _ None => ty
  end.

End Spec.

(** ** Vocabulary of the statements *)

Fixpoint allWhiteSpace (s : string) : bool :=
  match s with
  | EmptyString => true
  | String c s' => isWhiteSpace c && allWhiteSpace s'
  end.

Fixpoint noWhiteSpace (s : string) : bool :=
  match s with
  | EmptyString => true
  | String c s' => negb (isWhiteSpace c) && noWhiteSpace s'
  end.

(** No white space at the start, respectively at the end, of a string. *)
Definition startsClean (s : string) : bool :=
  match s with
  | EmptyString => true
  | String c _ => negb (isWhiteSpace c)
  end.

Fixpoint endsClean (s : string) : bool :=
  match s with
  | EmptyString => true
  | String c EmptyString => negb (isWhiteSpace c)
  | String _ s' => endsClean s'
  end.

(** Descriptors as the ABI grammar has them: type names are non-empty and
    hold no white space, names hold no white space, and a tuple array
    carrying components is the dynamic array [tuple[]]. *)
Fixpoint wellFormed (p : AbiParameter) : bool :=
  match p with
  | Build_AbiParameter ty n cs =>
      truthy_string ty && noWhiteSpace ty && noWhiteSpace (name_or_empty n)
      && match cs with
         | Some l =>
             forallb wellFormed l
             && (negb (Spec.isTupleArray ty) || String.eqb ty "tuple[]")
         | None => true
         end
  end.

(** [startsWith c s]: the first code unit of [s] is [c]. *)
Definition startsWith (c : ascii) (s : string) : bool :=
  match s with
  | String c' _ => Ascii.eqb c' c
  | EmptyString => false
  end.

(** Two code units that are equal, or the same letter A-F in the two
    cases. *)
Definition sameHexLetter (c d : ascii) : bool :=
  Ascii.eqb c d
  || (between 65 70 c && (code d =? code c + 32)%N)
  || (between 65 70 d && (code c =? code d + 32)%N).

(** Two strings that differ at most in the case of hex letters. *)
Fixpoint hexCaseVariant (s t : string) : bool :=
  match s, t with
  | EmptyString, EmptyString => true
  | String c s', String d t' => sameHexLetter c d && hexCaseVariant s' t'
  | _, _ => false
  end.

Definition hexCaseVariant_opt (c c' : option string) : bool :=
  match c, c' with
  | Some h, Some h' => hexCaseVariant h h'
  | None, None => true
  | _, _ => false
  end.

(** The slots of [Promise.all] after the settlements [order] when every
    promise is fulfilled, promise [i] with [vs !! i]. *)
Definition filled {A} (vs : list A) (slots : list (option A)) (order : list nat)
  : list (option A) :=
  foldl (λ sl i, match vs !! i with Some v => <[i := Some v]> sl | None => sl end)
    slots order.

(** The value the promise of [enrichArg] is fulfilled with. *)
Fixpoint enriched {Client : Type}
    (autoload : Client → value → autoload_options → completion (option Abi))
    (decodeFunctionData : Abi → string → completion DecodedFunctionData)
    (client : Client) (arg : value) : value :=
  match arg with
  | VArray elems => VArray (map (enriched autoload decodeFunctionData client) elems)
  | VObject props => enrich_object Client autoload decodeFunctionData client props
  | _ => arg
  end.

(** [annotation_of arg r]: [r] is [arg], or [arg] with a [decodedCall]
    property set, or an array whose elements are such, position by
    position. *)
Inductive annotation_of : value → value → Prop :=
| annotation_none v : annotation_of v v
| annotation_call props fn a i :
    annotation_of (VObject props)
      (VObject (set_prop props "decodedCall" (VDecodedCall fn a i)))
| annotation_array l l' :
    Forall2 annotation_of l l' → annotation_of (VArray l) (VArray l').

(** The node reached from an argument list by a non-empty path of
    indices, each step but the last entering an array. *)
Fixpoint node_at (args : list value) (path : list nat) : option value :=
  match path with
  | [] => None
  | i :: path' =>
      match path' with
      | [] => args !! i
      | _ => match args !! i with
             | Some (VArray elems) => node_at elems path'
             | _ => None
             end
      end
  end.

(** Some node of the tree under [v], at any depth (array elements,
    property values, arguments of a decoded call), satisfies [P]. *)
Fixpoint some_node (P : value → bool) (v : value) : bool :=
  P v
  || match v with
     | VArray elems => existsb (some_node P) elems
     | VObject props => existsb (λ kv, some_node P kv.2) props
     | VDecodedCall _ (Some a) _ => existsb (some_node P) a
     | _ => false
     end.

(** A nested call candidate whose decode succeeds but that carries no
    [decodedCall] property. *)
Definition missed_call {Client : Type}
    (autoload : Client → value → autoload_options → completion (option Abi))
    (decodeFunctionData : Abi → string → completion DecodedFunctionData)
    (client : Client) (v : value) : bool :=
  match v with
  | VObject props =>
      negb (has_own props "decodedCall")
      && match call_candidate props with
         | Some (target, d) =>
             match decode_inner Client autoload decodeFunctionData client props target d with
             | Normal (Some _) => true
             | _ => false
             end
         | None => false
         end
  | _ => false
  end.

(** ** A small world for the examples: the contract at 0xaa has a known
    interface, resolving 0xbb throws, every other address has none. *)
Module Demo.

Definition erc20 : Abi :=
  [Build_AbiItem "event" (Some "transfer") (Some []);
   Build_AbiItem "function" (Some "transfer")
     (Some [Build_AbiParameter "address" (Some "to") None;
            Build_AbiParameter "uint256" (Some "amount") None]);
   Build_AbiItem "function" (Some "transfer")
     (Some [Build_AbiParameter "address" (Some "to") None]);
   Build_AbiItem "function" (Some "run")
     (Some [Build_AbiParameter "tuple" (Some "inner")
              (Some [Build_AbiParameter "address" (Some "to") None;
                     Build_AbiParameter "bytes" (Some "data") None])])].

Definition autoload (_ : unit) (target : value) (_ : autoload_options)
  : completion (option Abi) :=
  match target with
  | VString a =>
      if String.eqb a "0xaa" then Normal (Some erc20)
      else if String.eqb a "0xbb" then Throw (Error "network")
      else Normal None
  | _ => Normal None
  end.

Definition call (target data : string) : value :=
  VObject [("target", VString target); ("value", VBigInt 0); ("data", VString data)].

Definition decodeFunctionData (_ : Abi) (data : string) : completion DecodedFunctionData :=
  if String.eqb data "0xa9059cbb" then
    Normal (Build_DecodedFunctionData "transfer" (Some [VString "0xcc"; VBigInt 5]))
  else if String.eqb data "0xc0406226" then
    Normal (Build_DecodedFunctionData "run" (Some [call "0xaa" "0xa9059cbb"]))
  else if String.eqb data "0x34fcd5be" then
    Normal (Build_DecodedFunctionData "executeBatch"
              (Some [call "0xaa" "0xa9059cbb"; call "0xbb" "0xa9059cbb"; VBigInt 9]))
  else Throw (Error "no matching selector").

(** The decoder of a wallet whose [executeBatch] takes one array of
    calls and a memo: the first call decodes, resolving the target of the
    second throws, the third has no matching selector, the target of the
    fourth has no interface. *)
Definition batch_calls : list value :=
  [call "0xaa" "0xa9059cbb"; call "0xbb" "0xa9059cbb"; call "0xaa" "0xffffffff";
   call "0xee" "0xa9059cbb"; VBigInt 9].

Definition decodeBatch (abi : Abi) (data : string) : completion DecodedFunctionData :=
  if String.eqb data "0x18dfb3c7" then
    Normal (Build_DecodedFunctionData "executeBatch"
              (Some [VArray batch_calls; VString "memo"]))
  else decodeFunctionData abi data.

(** The annotation a successful decode of a transfer attaches. *)
Definition transfer_call : value :=
  VDecodedCall "transfer" (Some [VString "0xcc"; VBigInt 5])
    (Some [Build_AbiParameter "address" (Some "to") None;
           Build_AbiParameter "uint256" (Some "amount") None]).

Definition annotated (target data : string) (d : value) : value :=
  VObject [("target", VString target); ("value", VBigInt 0); ("data", VString data);
           ("decodedCall", d)].

End Demo.

Definition is_throw {A} (m : completion A) : bool :=
  match m with
  | Throw _ => true
  | Normal _ => false
  end.

(** The six integer fields of a record, in declaration order. *)
Definition int_fields (op : UserOpV06) : list Z :=
  [nonce op; callGasLimit op; verificationGasLimit op; preVerificationGas op;
   maxFeePerGas op; maxPriorityFeePerGas op].

(** The four byte-string fields of a record, in declaration order. *)
Definition hex_fields (op : UserOpV06) : list string :=
  [initCode op; callData op; paymasterAndData op; signature op].

Definition int_keys : list string :=
  ["nonce"; "callGasLimit"; "verificationGasLimit"; "preVerificationGas";
   "maxFeePerGas"; "maxPriorityFeePerGas"].

Definition hex_keys : list string :=
  ["initCode"; "callData"; "paymasterAndData"; "signature"].

(** The text each integer field is read from, in either mode: the form
    input, or [String(parsed.key)].  In raw mode a JSON syntax error
    leaves no field. *)
Definition int_sources (JSON_parse : string → option value) (st : FormState)
  : list (completion string) :=
  match inputMode st with
  | fields =>
      Normal <$> [in_nonce st; in_callGasLimit st; in_verificationGasLimit st;
                  in_preVerificationGas st; in_maxFeePerGas st;
                  in_maxPriorityFeePerGas st]
  | raw =>
      match JSON_parse (rawInput st) with
      | Some parsed => (λ k, v ← Get parsed k; ToString v) <$> int_keys
      | None => (λ _, Throw SyntaxError) <$> int_keys
      end
  end.

(** What each integer field and each byte-string field of the input
    parses to. *)
Definition int_results (JSON_parse : string → option value) (st : FormState)
  : list (completion Z) :=
  (λ src, text ← src; parseValue text) <$> int_sources JSON_parse st.

Definition hex_results (JSON_parse : string → option value) (st : FormState)
  : list (completion string) :=
  match inputMode st with
  | fields =>
      parseHexValue <$> [in_initCode st; in_callData st; in_paymasterAndData st;
                         in_signature st]
  | raw =>
      match JSON_parse (rawInput st) with
      | Some parsed => (λ k, v ← Get parsed k; parseHexValue_any v) <$> hex_keys
      | None => (λ _, Throw SyntaxError) <$> hex_keys
      end
  end.

(** The text [parseValue] hands to [BigInt]: the trimmed input, without
    its last code unit when it is not a hex string and ends in "n". *)
Definition bigIntOperand (value : string) : string :=
  let trimmed := trim value in
  if negb (isHex trimmed) && endsWith_n trimmed then slice_0_m1 trimmed else trimmed.

(** The object literal of the normaliser over already evaluated field
    parsers, in source order. *)
Definition assemble (v_sender : value) (ints : list (completion Z))
    (hexes : list (completion string)) : completion UserOpV06 :=
  match ints, hexes with
  | [r_nonce; r_callGasLimit; r_verificationGasLimit; r_preVerificationGas;
     r_maxFeePerGas; r_maxPriorityFeePerGas],
    [r_initCode; r_callData; r_paymasterAndData; r_signature] =>
      f_nonce ← r_nonce;
      f_initCode ← r_initCode;
      f_callData ← r_callData;
      f_callGasLimit ← r_callGasLimit;
      f_verificationGasLimit ← r_verificationGasLimit;
      f_preVerificationGas ← r_preVerificationGas;
      f_maxFeePerGas ← r_maxFeePerGas;
      f_maxPriorityFeePerGas ← r_maxPriorityFeePerGas;
      f_paymasterAndData ← r_paymasterAndData;
      f_signature ← r_signature;
      Normal (Build_UserOpV06 v_sender f_nonce f_initCode f_callData f_callGasLimit
                f_verificationGasLimit f_preVerificationGas f_maxFeePerGas
                f_maxPriorityFeePerGas f_paymasterAndData f_signature)
  | _, _ => Throw TypeError
  end.

(** A parsed JSON text with every member present. *)
Definition sample_userop_json : value :=
  VObject [("sender", VString "0x1111111111111111111111111111111111111111");
           ("nonce", VNumber "7"); ("initCode", VString "0x");
           ("callData", VString "0xb61d27f6"); ("callGasLimit", VString "0x5208");
           ("verificationGasLimit", VString "100000n");
           ("preVerificationGas", VNumber "21000"); ("maxFeePerGas", VString " 30 ");
           ("maxPriorityFeePerGas", VString ""); ("paymasterAndData", VString "0x");
           ("signature", VString "0xdeadbeef")].

(* ================================================================== *)
(** * App.tsx: the Parsed UserOperation panel and the query switch *)
(* ================================================================== *)

(** [BigInt.prototype.toString()]: the decimal rendering, with a leading
    minus sign for a negative value. *)
Definition BigInt_toString (z : Z) : string := pretty z.

(** The object handed to [JSON.stringify] in lines 687-697: the spread of
    the record, with the six integer members overwritten in place by
    their decimal strings. *)
Definition displayed (op : UserOpV06) : list (string * value) :=
  [("sender", sender op);
   ("nonce", VString (BigInt_toString (nonce op)));
   ("initCode", VString (initCode op));
   ("callData", VString (callData op));
   ("callGasLimit", VString (BigInt_toString (callGasLimit op)));
   ("verificationGasLimit", VString (BigInt_toString (verificationGasLimit op)));
   ("preVerificationGas", VString (BigInt_toString (preVerificationGas op)));
   ("maxFeePerGas", VString (BigInt_toString (maxFeePerGas op)));
   ("maxPriorityFeePerGas", VString (BigInt_toString (maxPriorityFeePerGas op)));
   ("paymasterAndData", VString (paymasterAndData op));
   ("signature", VString (signature op))].

(** The [enabled] flag of the decode query (lines 412-416) and of the
    simulation query (lines 466-470):
    [!!sender && !!callData && callData !== "0x" && !!client]. *)
Definition enabled {Client : Type} (parsedUserOp : option UserOpV06)
    (client : option Client) : bool :=
  match parsedUserOp, client with
  | Some userOp, Some _ =>
      truthy (sender userOp) && truthy_string (callData userOp)
      && negb (String.eqb (callData userOp) "0x")
  | _, _ => false
  end.

(** ** Further vocabulary *)

(** The own property names of an object, in order. *)
Definition keys (props : list (string * value)) : list string := props.*1.

(** No object that passes the test of line 367 occurs among the
    arguments, at any depth through arrays. *)
Fixpoint no_candidates (v : value) : bool :=
  match v with
  | VArray elems => forallb no_candidates elems
  | VObject props =>
      match call_candidate props with
      | Some _ => false
      | None => true
      end
  | _ => true
  end.

(** The contents of the eleven inputs of the form. *)
Definition form_texts (st : FormState) : list string :=
  [in_sender st; in_nonce st; in_initCode st; in_callData st; in_callGasLimit st;
   in_verificationGasLimit st; in_preVerificationGas st; in_maxFeePerGas st;
   in_maxPriorityFeePerGas st; in_paymasterAndData st; in_signature st].

Definition form_keys : list string :=
  ["sender"; "nonce"; "initCode"; "callData"; "callGasLimit";
   "verificationGasLimit"; "preVerificationGas"; "maxFeePerGas";
   "maxPriorityFeePerGas"; "paymasterAndData"; "signature"].

(* ================================================================== *)
(** * Properties of the string primitives *)
(* ================================================================== *)

Section StringFacts.

Lemma trimStart_allWhiteSpace w s :
  allWhiteSpace w = true → trimStart (w +:+ s) = trimStart s.
Proof.
  induction w as [|c w IH]; simpl; [done|].
  intros [Hc Hw]%andb_true_iff. rewrite Hc. auto.
Qed.

Lemma trimEnd_allWhiteSpace_nil w : allWhiteSpace w = true → trimEnd w = "".
Proof.
  induction w as [|c w IH]; simpl; [done|].
  intros [Hc Hw]%andb_true_iff. rewrite (IH Hw), Hc. done.
Qed.

Lemma trimEnd_app_allWhiteSpace s w :
  allWhiteSpace w = true → trimEnd (s +:+ w) = trimEnd s.
Proof.
  intros Hw. induction s as [|c s IH]; simpl.
  - by apply trimEnd_allWhiteSpace_nil.
  - by rewrite IH.
Qed.

Lemma trimStart_app_allWhiteSpace s w :
  allWhiteSpace w = true →
  trimEnd (trimStart (s +:+ w)) = trimEnd (trimStart s).
Proof.
  intros Hw. induction s as [|c s IH]; simpl.
  - change ("" +:+ w) with w.
    assert (trimStart w = "") as ->; [|done].
    clear -Hw. induction w as [|c w IH]; simpl in *; [done|].
    apply andb_true_iff in Hw as [-> Hw]. auto.
  - destruct (isWhiteSpace c); [done|].
    change (String c (s +:+ w)) with (String c s +:+ w).
    by apply trimEnd_app_allWhiteSpace.
Qed.

(** White space added around a string does not survive [trim]. *)
Lemma trim_surrounding w1 s w2 :
  allWhiteSpace w1 = true → allWhiteSpace w2 = true →
  trim (w1 +:+ s +:+ w2) = trim s.
Proof.
  intros H1 H2. unfold trim.
  rewrite (trimStart_allWhiteSpace _ _ H1).
  by apply trimStart_app_allWhiteSpace.
Qed.

Lemma trimEnd_noWhiteSpace s : noWhiteSpace s = true → trimEnd s = s.
Proof.
  induction s as [|c s IH]; simpl; [done|].
  intros [Hc Hs]%andb_true_iff. rewrite (IH Hs).
  apply negb_true_iff in Hc. rewrite Hc. by destruct s.
Qed.

Lemma trim_noWhiteSpace s : noWhiteSpace s = true → trim s = s.
Proof.
  intros H. unfold trim.
  assert (trimStart s = s) as ->; [|by apply trimEnd_noWhiteSpace].
  destruct s as [|c s]; simpl in *; [done|].
  apply andb_true_iff in H as [Hc _]. apply negb_true_iff in Hc. by rewrite Hc.
Qed.

(** What [trimEnd] returns is empty or ends where no white space is left:
    trimming it again changes nothing. *)
Lemma trimEnd_idem s : trimEnd (trimEnd s) = trimEnd s.
Proof.
  induction s as [|c s IH]; simpl; [done|].
  destruct (trimEnd s) as [|d r] eqn:E.
  - destruct (isWhiteSpace c) eqn:Hc; simpl; [done|]. by rewrite Hc.
  - simpl in *. by rewrite IH.
Qed.

Lemma trimEnd_head c s :
  isWhiteSpace c = false → ∃ r, trimEnd (String c s) = String c r.
Proof.
  intros Hc. simpl. destruct (trimEnd s); rewrite ?Hc; eauto.
Qed.

Lemma trimStart_head s c r : trimStart s = String c r → isWhiteSpace c = false.
Proof.
  induction s as [|d s IH]; simpl; [done|].
  destruct (isWhiteSpace d) eqn:Hd; [done|]. by intros [= <- _].
Qed.

(** The first code unit of a trimmed string is not white space. *)
Lemma trim_head s c r : trim s = String c r → isWhiteSpace c = false.
Proof.
  unfold trim. destruct (trimStart s) as [|d u] eqn:E; [done|].
  pose proof (trimStart_head _ _ _ E) as Hd.
  destruct (trimEnd_head d u Hd) as [r' ->]. by intros [= <- _].
Qed.

Lemma trim_idem s : trim (trim s) = trim s.
Proof.
  destruct (trim s) as [|c r] eqn:E; [done|].
  pose proof (trim_head _ _ _ E) as Hc.
  unfold trim at 1. simpl. rewrite Hc. rewrite <- E.
  unfold trim. apply trimEnd_idem.
Qed.

End StringFacts.

(* ================================================================== *)
(** * Properties of digit strings and of [BigInt] *)
(* ================================================================== *)

(** Decide every comparison on code units that occurs in the goal. *)
Ltac code_cases :=
  unfold isHexDigit, isWhiteSpace, digitValue, Spec.decimalDigit, between in *;
  repeat match goal with
    | |- context [(?a <=? ?b)%N] => destruct (N.leb_spec a b)
    | |- context [(?a =? ?b)%N] => destruct (N.eqb_spec a b)
    | H : context [(?a <=? ?b)%N] |- _ => destruct (N.leb_spec a b)
    | H : context [(?a =? ?b)%N] |- _ => destruct (N.eqb_spec a b)
    end;
  simpl in *; simplify_eq; try done; try lia.

Section DigitFacts.

Lemma digitValue_range c d : digitValue c = Some d → 0 ≤ d < 16.
Proof. intros H. code_cases. Qed.

Lemma digitValue_isHexDigit c d : digitValue c = Some d → isHexDigit c = true.
Proof. intros H. code_cases. Qed.

Lemma digitValue_not_space c d : digitValue c = Some d → isWhiteSpace c = false.
Proof. intros H. code_cases. Qed.

Lemma isHexDigit_digitValue c : isHexDigit c = true → ∃ d, digitValue c = Some d ∧ 0 ≤ d < 16.
Proof. intros H. code_cases; eexists; split; try done; lia. Qed.

Lemma digitsFrom_allHexDigits radix acc s v :
  digitsFrom radix acc s = Some v → allHexDigits s = true.
Proof.
  revert acc. induction s as [|c s IH]; simpl; [done|]. intros acc.
  destruct (digitValue c) as [d|] eqn:Hd; [|done].
  destruct (d <? radix); [|done]. intros H.
  rewrite (digitValue_isHexDigit _ _ Hd). simpl. eauto.
Qed.

Lemma digitsFrom_noWhiteSpace radix acc s v :
  digitsFrom radix acc s = Some v → noWhiteSpace s = true.
Proof.
  revert acc. induction s as [|c s IH]; simpl; [done|]. intros acc.
  destruct (digitValue c) as [d|] eqn:Hd; [|done].
  destruct (d <? radix); [|done]. intros H.
  rewrite (digitValue_not_space _ _ Hd). simpl. eauto.
Qed.

Lemma allHexDigits_digitsFrom acc s :
  allHexDigits s = true → ∃ v, digitsFrom 16 acc s = Some v.
Proof.
  revert acc. induction s as [|c s IH]; simpl; [eauto|]. intros acc.
  intros [Hc Hs]%andb_true_iff.
  destruct (isHexDigit_digitValue c Hc) as (d & -> & Hd).
  destruct (Z.ltb_spec d 16); [|lia]. eauto.
Qed.

(** A run of [n] digits appended to [acc] lands in
    [acc * radix^n, (acc + 1) * radix^n). *)
Lemma digitsFrom_bounds radix acc s v :
  0 < radix → 0 ≤ acc → digitsFrom radix acc s = Some v →
  acc * radix ^ Z.of_nat (String.length s) ≤ v
  ∧ v < (acc + 1) * radix ^ Z.of_nat (String.length s).
Proof.
  intros Hr. revert acc. induction s as [|c s IH]; intros acc Hacc; simpl String.length.
  - simpl. intros [= <-]. lia.
  - simpl digitsFrom. destruct (digitValue c) as [d|] eqn:Hd; [|done].
    pose proof (digitValue_range _ _ Hd) as Hrange.
    destruct (Z.ltb_spec d radix) as [Hlt|]; [|done]. intros H.
    apply IH in H; [|nia].
    rewrite Nat2Z.inj_succ, Z.pow_succ_r by lia.
    assert (0 < radix ^ Z.of_nat (String.length s)) by (apply Z.pow_pos_nonneg; lia).
    split; nia.
Qed.

Lemma digits_nonneg radix s v : 0 < radix → digits radix s = Some v → 0 ≤ v.
Proof.
  intros Hr H. destruct s; [done|]. apply digitsFrom_bounds in H; [|done|done]. lia.
Qed.

Lemma decimalFrom_digitsFrom acc s v :
  Spec.decimalFrom acc s = Some v → digitsFrom 10 acc s = Some v.
Proof.
  revert acc. induction s as [|c s IH]; simpl; [done|]. intros acc.
  destruct (Spec.decimalDigit c) as [d|] eqn:Hd; [|done].
  assert (digitValue c = Some d ∧ d < 10) as [-> Hlt]
    by (clear IH; code_cases; split; first [done | lia | f_equal; lia]).
  destruct (Z.ltb_spec d 10); [|lia].
  rewrite (Z.mul_comm acc 10). apply IH.
Qed.

Lemma decimalDigit_digitValue c :
  Spec.decimalDigit c
  = match digitValue c with
    | Some d => if d <? 10 then Some d else None
    | None => None
    end.
Proof. by destruct c as [[] [] [] [] [] [] [] []]. Qed.

Lemma decimalFrom_eq_digitsFrom acc s : Spec.decimalFrom acc s = digitsFrom 10 acc s.
Proof.
  revert acc. induction s as [|c s IH]; [done|]. intros acc.
  simpl. rewrite decimalDigit_digitValue.
  destruct (digitValue c) as [d|]; [|done].
  destruct (d <? 10); [|done]. by rewrite (Z.mul_comm 10 acc).
Qed.

Lemma decimalFrom_first_digit acc c s v :
  Spec.decimalFrom acc (String c s) = Some v → between 48 57 c = true.
Proof. simpl. unfold Spec.decimalDigit. by destruct (between 48 57 c). Qed.

End DigitFacts.

Section BigIntFacts.

Lemma StringToBigInt_trimmed c s :
  trim (String c s) = String c s →
  StringToBigInt (String c s) = StrIntegerLiteral (String c s).
Proof. intros H. unfold StringToBigInt. by rewrite H. Qed.

Lemma hexLiteral_isHex t v :
  Spec.hexLiteral t = Some v → isHex t = true ∧ StrIntegerLiteral t = Some v.
Proof.
  destruct t as [|c0 [|c1 ds]]; simpl; try done.
  destruct (Ascii.eqb_spec c0 "0"), (Ascii.eqb_spec c1 "x"); subst; simpl; try done.
  intros H. split; [|done].
  destruct ds; [done|]. by eapply digitsFrom_allHexDigits.
Qed.

Lemma isHex_no_hexLiteral t :
  isHex t = true → Spec.hexLiteral t = None → t = "0x".
Proof.
  destruct t as [|c0 [|c1 ds]]; simpl; try done.
  destruct (Ascii.eqb_spec c0 "0"), (Ascii.eqb_spec c1 "x"); subst; simpl; try done.
  intros Hds. destruct ds as [|c ds]; [done|].
  destruct (allHexDigits_digitsFrom 0 _ Hds) as [v Hv].
  unfold digits. by rewrite Hv.
Qed.

Lemma radixOfPrefix_digit c : between 48 57 c = true → radixOfPrefix c = None.
Proof.
  intros H. unfold radixOfPrefix.
  repeat match goal with
    | |- context [Ascii.eqb c ?k] => destruct (Ascii.eqb_spec c k); [by subst|]
    end.
  done.
Qed.

(** A signed decimal integer of the specification is read by the
    StrIntegerLiteral grammar with the same value and holds no white
    space. *)
Lemma decimalInteger_StrIntegerLiteral s v :
  Spec.decimalInteger s = Some v →
  StrIntegerLiteral s = Some v ∧ noWhiteSpace s = true.
Proof.
  destruct s as [|c ds]; [done|]. unfold Spec.decimalInteger.
  destruct (Ascii.eqb_spec c "-") as [->|Hm].
  { destruct ds as [|d ds]; [done|].
    destruct (Spec.decimalFrom 0 (String d ds)) as [w|] eqn:E; [|done].
    apply decimalFrom_digitsFrom in E. intros [= <-].
    split.
    - unfold StrIntegerLiteral, SignedInteger, digits. simpl nonDecimalPrefix.
      simpl Ascii.eqb. cbv iota. by rewrite E.
    - change (noWhiteSpace (String d ds) = true).
      by eapply digitsFrom_noWhiteSpace. }
  destruct (Ascii.eqb_spec c "+") as [->|Hp].
  { destruct ds as [|d ds]; [done|]. intros E.
    apply decimalFrom_digitsFrom in E.
    split.
    - unfold StrIntegerLiteral, SignedInteger, digits. simpl nonDecimalPrefix.
      simpl Ascii.eqb. cbv iota. by rewrite E.
    - change (noWhiteSpace (String d ds) = true).
      by eapply digitsFrom_noWhiteSpace. }
  intros E. pose proof (decimalFrom_digitsFrom _ _ _ E) as E'.
  split; [|by eapply digitsFrom_noWhiteSpace].
  assert (nonDecimalPrefix (String c ds) = None) as Hnp.
  { destruct ds as [|c1 ds]; [done|]. simpl.
    destruct (Ascii.eqb c "0"); [|done].
    simpl in E. destruct (Spec.decimalDigit c); [|done].
    apply decimalFrom_first_digit in E. by rewrite (radixOfPrefix_digit _ E). }
  unfold StrIntegerLiteral. rewrite Hnp. unfold SignedInteger.
  destruct (Ascii.eqb_spec c "+"); [done|].
  destruct (Ascii.eqb_spec c "-"); [done|]. done.
Qed.

Lemma decimalInteger_BigInt s v :
  Spec.decimalInteger s = Some v → BigInt s = Normal v.
Proof.
  intros H. destruct (decimalInteger_StrIntegerLiteral _ _ H) as [Hl Hws].
  unfold BigInt. destruct s as [|c s]; [done|].
  rewrite StringToBigInt_trimmed by (by apply trim_noWhiteSpace). by rewrite Hl.
Qed.

(** The grammar of [BigInt] is the amended rule's integer literal. *)
Lemma decimalInteger_SignedInteger s : Spec.decimalInteger s = SignedInteger s.
Proof.
  destruct s as [|c ds]; [done|]. unfold Spec.decimalInteger, SignedInteger, digits.
  destruct (Ascii.eqb_spec c "-") as [->|Hm].
  { simpl Ascii.eqb. cbv iota.
    destruct ds; [done|]. by rewrite decimalFrom_eq_digitsFrom. }
  destruct (Ascii.eqb_spec c "+") as [->|Hp].
  { destruct ds; [done|]. by rewrite decimalFrom_eq_digitsFrom. }
  by rewrite decimalFrom_eq_digitsFrom.
Qed.

Lemma prefix2 a b s :
  String.prefix (String a (String b "")) s
  = match s with
    | String c0 (String c1 _) => Ascii.eqb c0 a && Ascii.eqb c1 b
    | _ => false
    end.
Proof.
  destruct s as [|c0 [|c1 ds]]; cbn [String.prefix].
  - done.
  - by destruct (ascii_dec a c0).
  - destruct (ascii_dec a c0) as [->|Hn].
    + rewrite Ascii.eqb_refl.
      destruct (ascii_dec b c1) as [->|Hn]; [rewrite Ascii.eqb_refl; by destruct ds|].
      apply not_eq_sym, Ascii.eqb_neq in Hn. by rewrite Hn.
    + apply not_eq_sym, Ascii.eqb_neq in Hn. by rewrite Hn.
Qed.

Lemma prefixedLiteral_nonDecimalPrefix t :
  Spec.prefixedLiteral t = (λ p, digits p.1 p.2) <$> nonDecimalPrefix t.
Proof.
  unfold Spec.prefixedLiteral. rewrite !prefix2.
  destruct t as [|c0 [|c1 ds]]; [done|done|].
  unfold nonDecimalPrefix, radixOfPrefix, Spec.afterPrefix.
  destruct (Ascii.eqb c0 "0"); [|done]. cbn [andb].
  destruct (Ascii.eqb c1 "x"); [done|].
  destruct (Ascii.eqb c1 "X"); [done|].
  destruct (Ascii.eqb c1 "o"); [done|].
  destruct (Ascii.eqb c1 "O"); [done|].
  destruct (Ascii.eqb c1 "b"); [done|].
  by destruct (Ascii.eqb c1 "B").
Qed.

Lemma StringToBigInt_integerLiteral s : StringToBigInt s = Spec.integerLiteral s.
Proof.
  unfold StringToBigInt, Spec.integerLiteral.
  destruct (trim s) as [|c t]; [done|].
  unfold StrIntegerLiteral. rewrite prefixedLiteral_nonDecimalPrefix.
  destruct (nonDecimalPrefix (String c t)) as [[radix ds]|]; [done|].
  by rewrite decimalInteger_SignedInteger.
Qed.

Lemma parseValue_amended_rule value :
  parseValue value
  = match Spec.parseValue_amended value with
    | Some v => Normal v
    | None => Throw SyntaxError
    end.
Proof.
  unfold Spec.parseValue_amended, parseValue.
  pose proof (trim_idem value) as Hidem.
  destruct (trim value) as [|c r] eqn:E; [done|].
  simpl truthy_string. simpl negb. cbv iota.
  destruct (Spec.hexLiteral (String c r)) as [w|] eqn:Hhex.
  - destruct (hexLiteral_isHex _ _ Hhex) as [-> Hlit].
    unfold BigInt. rewrite (StringToBigInt_trimmed _ _ Hidem). by rewrite Hlit.
  - destruct (isHex (String c r)) eqn:Hc.
    + by rewrite (isHex_no_hexLiteral _ Hc Hhex).
    + unfold BigInt. rewrite !StringToBigInt_integerLiteral.
      by destruct (endsWith_n (String c r)).
Qed.

Lemma parseValue_BigInt value : parseValue value = BigInt (bigIntOperand value).
Proof.
  unfold parseValue, bigIntOperand.
  destruct (trim value) as [|c r] eqn:E; [done|]. simpl truthy_string. cbv iota.
  simpl negb at 1. cbv iota. by destruct (isHex _), (endsWith_n _).
Qed.

End BigIntFacts.

(* ================================================================== *)
(** * C2, C4: the field parsers *)
(* ================================================================== *)

(** C2, as stated, fails: the odd-length string "0x123" is not a
    well-formed even-length hex string, yet [parseHexValue] accepts it. *)
Lemma parseHexValue_accepts_odd_length :
  Spec.evenLengthHex "0x123" = false
  ∧ parseHexValue "0x123" = Normal "0x123"
  ∧ ¬ (∀ value h, parseHexValue value = Normal h → h = "0x" ∨ Spec.evenLengthHex h = true).
Proof.
  split; [done|]. split; [done|].
  intros H. by destruct (H "0x123" "0x123" eq_refl).
Qed.

(** C2 (amended): after trimming, the empty string and "0x" give the empty
    marker "0x"; any other value is accepted, and returned trimmed, exactly
    when it is "0x" followed by hex digits, whatever their number (even or
    odd); everything else throws "Invalid hex value: " followed by the raw
    input.  "0x1234" and "0x123" are both accepted. *)
Theorem parseHexValue_accepts_any_length (value : string) :
  (trim value = "" ∨ trim value = "0x" → parseHexValue value = Normal "0x")
  ∧ ((∃ h, parseHexValue value = Normal h) ↔ trim value = "" ∨ isHex (trim value) = true)
  ∧ (isHex (trim value) = true → parseHexValue value = Normal (trim value))
  ∧ (trim value ≠ "" → isHex (trim value) = false →
     parseHexValue value = Throw (Error ("Invalid hex value: " +:+ value)))
  ∧ parseHexValue "0x1234" = Normal "0x1234"
  ∧ parseHexValue "0x123" = Normal "0x123"
  ∧ parseHexValue "" = Normal "0x"
  ∧ parseHexValue "0x" = Normal "0x"
  ∧ parseHexValue " 0xzz" = Throw (Error "Invalid hex value:  0xzz").
Proof.
  unfold parseHexValue.
  destruct (trim value) as [|c r] eqn:E; [|
    cbn [truthy_string negb orb];
    destruct (String.eqb_spec (String c r) "0x") as [Heq|Hne];
      [rewrite Heq|destruct (isHex (String c r)) eqn:Hhex]];
    cbn [isHex]; split_and!; try done; try (by intros [|]);
    (split;
      [first [by left | by right | by intros [? ?]]
      |first [by eexists | by intros [|]]]).
Qed.

(** The amended C2 at the odd-length input of the specification. *)
Lemma parseHexValue_accepts_any_length_witness :
  isHex (trim " 0x123 ") = true ∧ parseHexValue " 0x123 " = Normal "0x123".
Proof.
  split; [reflexivity|].
  apply (proj1 (proj2 (proj2 (parseHexValue_accepts_any_length " 0x123 ")))).
  reflexivity.
Defined.

(** C4, as stated, fails: "0b11" is no decimal integer, so the rule of the
    specification has no value for it, but the code yields 3. *)
Lemma parseValue_reads_binary_literal :
  Spec.parseValue "0b11" = None
  ∧ parseValue "0b11" = Normal 3
  ∧ ¬ (∀ value, try_or_null (parseValue value) = Spec.parseValue value).
Proof.
  split; [reflexivity|]. split; [reflexivity|].
  intros H. by specialize (H "0b11").
Qed.

(** C4 (amended): for every input, the input is trimmed; the empty string
    gives 0; a 0x-prefixed hex literal is read as hex; a final "n" (on a
    string that is not a hex string) is dropped; what remains is read by
    [BigInt], which accepts optional surrounding white space around
    nothing (value 0), a signed decimal literal, or an unsigned literal
    prefixed 0x/0X, 0o/0O or 0b/0B, and throws a SyntaxError on anything
    else: the code returns exactly what [Spec.parseValue_amended] yields
    and throws exactly where it yields nothing.  Wherever the rule of the
    specification yields a value, the code yields the same value. *)
Theorem parseValue_refines_spec (value : string) :
  (∀ v, Spec.parseValue value = Some v → parseValue value = Normal v)
  ∧ parseValue value
    = match Spec.parseValue_amended value with
      | Some v => Normal v
      | None => Throw SyntaxError
      end
  ∧ parseValue value = BigInt (bigIntOperand value)
  ∧ (∀ s, BigInt s
          = match Spec.integerLiteral s with
            | Some v => Normal v
            | None => Throw SyntaxError
            end)
  ∧ parseValue "0x10" = Normal 16
  ∧ parseValue "10" = Normal 10
  ∧ parseValue "10n" = Normal 10
  ∧ parseValue "" = Normal 0
  ∧ parseValue "0b11" = Normal 3
  ∧ parseValue "0X10" = Normal 16
  ∧ parseValue " 0o17n " = Normal 15
  ∧ parseValue "-5" = Normal (-5)
  ∧ parseValue "n" = Normal 0
  ∧ parseValue "0x" = Throw SyntaxError
  ∧ parseValue "-0x10" = Throw SyntaxError
  ∧ parseValue "1.5" = Throw SyntaxError
  ∧ parseValue "12 34" = Throw SyntaxError
  ∧ parseValue "not-a-number" = Throw SyntaxError.
Proof.
  split; [|split; [apply parseValue_amended_rule
                  |split; [apply parseValue_BigInt
                          |split; [|by repeat split]]]].
  - intros v Hspec. revert Hspec. unfold Spec.parseValue, parseValue.
    pose proof (trim_idem value) as Hidem.
    destruct (trim value) as [|c r] eqn:E; [by intros [= <-]|].
    simpl truthy_string. simpl negb. cbv iota.
    destruct (Spec.hexLiteral (String c r)) as [w|] eqn:Hhex.
    + intros [= <-]. destruct (hexLiteral_isHex _ _ Hhex) as [-> Hlit].
      unfold BigInt. rewrite (StringToBigInt_trimmed _ _ Hidem). by rewrite Hlit.
    + destruct (isHex (String c r)) eqn:Hc.
      * rewrite (isHex_no_hexLiteral _ Hc Hhex). by simpl.
      * destruct (endsWith_n (String c r)); apply decimalInteger_BigInt.
  - intros s. unfold BigInt. by rewrite StringToBigInt_integerLiteral.
Qed.

(** The amended C4 at "10n", where the rule of the specification applies,
    and at "0b11" and "1.5", where it does not. *)
Lemma parseValue_refines_spec_witness :
  Spec.parseValue " 10n " = Some 10 ∧ parseValue " 10n " = Normal 10
  ∧ Spec.parseValue "0b11" = None ∧ parseValue "0b11" = Normal 3
  ∧ parseValue "1.5" = Throw SyntaxError.
Proof.
  split; [reflexivity|]. split; [|split; [reflexivity|split]].
  - apply (proj1 (parseValue_refines_spec " 10n ") 10). reflexivity.
  - exact (proj1 (proj2 (parseValue_refines_spec "0b11"))).
  - exact (proj1 (proj2 (parseValue_refines_spec "1.5"))).
Defined.

(* ================================================================== *)
(** * C1, C3: the normaliser *)
(* ================================================================== *)

Section NormalizerFacts.

Variable JSON_parse : string → option value.

Lemma assemble_cases v_sender ints hexes :
  length ints = 6%nat → length hexes = 4%nat →
  (∃ op, assemble v_sender ints hexes = Normal op
         ∧ sender op = v_sender
         ∧ Forall2 (λ r v, r = Normal v) ints (int_fields op)
         ∧ Forall2 (λ r h, r = Normal h) hexes (hex_fields op))
  ∨ ((∃ e, assemble v_sender ints hexes = Throw e)
     ∧ (Exists (λ r, is_throw r = true) ints ∨ Exists (λ r, is_throw r = true) hexes)).
Proof.
  intros Hi Hh.
  destruct ints as [|i1 [|i2 [|i3 [|i4 [|i5 [|i6 [|]]]]]]]; try done.
  destruct hexes as [|h1 [|h2 [|h3 [|h4 [|]]]]]; try done.
  clear Hi Hh. unfold assemble.
  destruct i1 as [?|?]; [|right; split; [by eexists|left; auto 10 using Exists]].
  destruct h1 as [?|?]; [|right; split; [by eexists|right; auto 10 using Exists]].
  destruct h2 as [?|?]; [|right; split; [by eexists|right; auto 10 using Exists]].
  destruct i2 as [?|?]; [|right; split; [by eexists|left; auto 10 using Exists]].
  destruct i3 as [?|?]; [|right; split; [by eexists|left; auto 10 using Exists]].
  destruct i4 as [?|?]; [|right; split; [by eexists|left; auto 10 using Exists]].
  destruct i5 as [?|?]; [|right; split; [by eexists|left; auto 10 using Exists]].
  destruct i6 as [?|?]; [|right; split; [by eexists|left; auto 10 using Exists]].
  destruct h3 as [?|?]; [|right; split; [by eexists|right; auto 10 using Exists]].
  destruct h4 as [?|?]; [|right; split; [by eexists|right; auto 10 using Exists]].
  left. eexists. split; [done|]. split; [done|].
  split; repeat constructor.
Qed.

Lemma int_results_length st : length (int_results JSON_parse st) = 6%nat.
Proof.
  unfold int_results, int_sources. rewrite length_fmap.
  by destruct (inputMode st), (JSON_parse (rawInput st)).
Qed.

Lemma hex_results_length st : length (hex_results JSON_parse st) = 4%nat.
Proof. unfold hex_results. by destruct (inputMode st), (JSON_parse (rawInput st)). Qed.

(** Both branches of [parsedUserOp] are the same object literal over the
    field results. *)
Lemma parsedUserOp_assemble st :
  ∃ v_sender,
    parsedUserOp JSON_parse st = None
    ∧ (Exists (λ r, is_throw r = true) (int_results JSON_parse st))
    ∨ parsedUserOp JSON_parse st =
      try_or_null (assemble v_sender (int_results JSON_parse st) (hex_results JSON_parse st)).
Proof.
  unfold parsedUserOp, parseUserOpFromRaw, parseUserOpFromRaw_body,
    int_results, int_sources, hex_results.
  destruct (inputMode st).
  - destruct (JSON_parse (rawInput st)) as [parsed|].
    + destruct parsed; try (exists VUndefined; left; split; [done|by left]);
        eexists; right; reflexivity.
    + exists VUndefined. left. split; [done|by left].
  - eexists. right. reflexivity.
Qed.

(** [parseUserOpFromRaw] on a text that parses to an object. *)
Lemma parseUserOpFromRaw_object raw_text props :
  JSON_parse raw_text = Some (VObject props) →
  parseUserOpFromRaw JSON_parse raw_text =
  try_or_null
    (assemble (own_prop props "sender")
       ((λ k, parseValue_String (own_prop props k)) <$> int_keys)
       ((λ k, parseHexValue_any (own_prop props k)) <$> hex_keys)).
Proof.
  intros H. unfold parseUserOpFromRaw, parseUserOpFromRaw_body. by rewrite H.
Qed.

(** [parsedUserOp] in fields mode. *)
Lemma parsedUserOp_fields_assemble st :
  inputMode st = fields →
  parsedUserOp JSON_parse st =
  try_or_null
    (assemble (VString (in_sender st))
       (parseValue <$> [in_nonce st; in_callGasLimit st; in_verificationGasLimit st;
                        in_preVerificationGas st; in_maxFeePerGas st;
                        in_maxPriorityFeePerGas st])
       (parseHexValue <$> [in_initCode st; in_callData st; in_paymasterAndData st;
                           in_signature st])).
Proof. intros H. unfold parsedUserOp. by rewrite H. Qed.

(** The sender of a produced record is the sender input of the form, in
    fields mode, and whatever the parsed object holds under [sender], in
    raw mode. *)
Lemma sender_of_record_fields st op :
  inputMode st = fields → parsedUserOp JSON_parse st = Some op →
  sender op = VString (in_sender st).
Proof.
  intros Hmode Hop. rewrite (parsedUserOp_fields_assemble _ Hmode) in Hop.
  destruct (assemble_cases (VString (in_sender st))
       (parseValue <$> [in_nonce st; in_callGasLimit st; in_verificationGasLimit st;
                        in_preVerificationGas st; in_maxFeePerGas st;
                        in_maxPriorityFeePerGas st])
       (parseHexValue <$> [in_initCode st; in_callData st; in_paymasterAndData st;
                           in_signature st]))
    as [(op' & Hop' & Hs & _)|[[e He] _]];
    [done|done| |by rewrite He in Hop].
  rewrite Hop' in Hop. by injection Hop as <-.
Qed.

Lemma sender_of_record_raw st op props :
  inputMode st = raw → JSON_parse (rawInput st) = Some (VObject props) →
  parsedUserOp JSON_parse st = Some op →
  sender op = own_prop props "sender".
Proof.
  intros Hmode Hjson Hop. unfold parsedUserOp in Hop. rewrite Hmode in Hop.
  rewrite (parseUserOpFromRaw_object _ _ Hjson) in Hop.
  destruct (assemble_cases (own_prop props "sender")
              ((λ k, parseValue_String (own_prop props k)) <$> int_keys)
              ((λ k, parseHexValue_any (own_prop props k)) <$> hex_keys))
    as [(op' & Hop' & Hs & _)|[[e He] _]];
    [done|done| |by rewrite He in Hop].
  rewrite Hop' in Hop. by injection Hop as <-.
Qed.

End NormalizerFacts.

Section SignAndRange.

Lemma nonDecimalPrefix_radix t radix ds :
  nonDecimalPrefix t = Some (radix, ds) → 0 < radix.
Proof.
  destruct t as [|c0 [|c1 r]]; simpl; try done.
  destruct (Ascii.eqb c0 "0"); [|done]. unfold radixOfPrefix.
  repeat match goal with |- context [if ?b then _ else _] => destruct b end;
    simpl; intros; simplify_eq; lia.
Qed.

Lemma StrIntegerLiteral_negative t v :
  StrIntegerLiteral t = Some v → v < 0 → startsWith "-" t = true.
Proof.
  unfold StrIntegerLiteral.
  destruct (nonDecimalPrefix t) as [[radix ds]|] eqn:E.
  - intros H Hv. apply nonDecimalPrefix_radix in E.
    apply digits_nonneg in H; [lia|done].
  - destruct t as [|c r]; [done|]. unfold SignedInteger, startsWith.
    destruct (Ascii.eqb c "+").
    { intros H Hv. apply digits_nonneg in H; lia. }
    destruct (Ascii.eqb c "-"); [done|].
    intros H Hv. apply digits_nonneg in H; lia.
Qed.

Lemma BigInt_negative s v :
  BigInt s = Normal v → v < 0 → startsWith "-" (trim s) = true.
Proof.
  unfold BigInt, StringToBigInt.
  destruct (trim s) as [|c r] eqn:E; [intros [= <-]; lia|].
  destruct (StrIntegerLiteral (String c r)) as [w|] eqn:Hl; [|done].
  intros [= <-]. by apply StrIntegerLiteral_negative.
Qed.

Lemma trim_keeps_head c r :
  isWhiteSpace c = false → startsWith c (trim (String c r)) = true.
Proof.
  intros Hc. unfold trim. simpl trimStart. rewrite Hc.
  destruct (trimEnd_head c r Hc) as [r' ->]. simpl.
  by destruct (Ascii.eqb_spec c c).
Qed.

Lemma startsWith_inj c d s : startsWith c s = true → startsWith d s = true → c = d.
Proof.
  destruct s as [|e s]; [done|]. simpl.
  destruct (Ascii.eqb_spec e c), (Ascii.eqb_spec e d); congruence.
Qed.

(** [parseValue] yields a negative value only from a text whose first
    code unit after trimming is a minus sign. *)
Lemma parseValue_negative value v :
  parseValue value = Normal v → v < 0 → startsWith "-" (trim value) = true.
Proof.
  rewrite parseValue_BigInt. intros H Hv.
  pose proof (BigInt_negative _ _ H Hv) as Hm. revert Hm.
  unfold bigIntOperand. pose proof (trim_idem value) as Hidem.
  destruct (negb (isHex (trim value)) && endsWith_n (trim value)); [|by rewrite Hidem].
  destruct (trim value) as [|c r] eqn:E; [done|].
  pose proof (trim_head _ _ _ E) as Hc.
  destruct r as [|d r]; [done|].
  change (slice_0_m1 (String c (String d r))) with (String c (slice_0_m1 (String d r))).
  intros Hm. pose proof (trim_keeps_head c (slice_0_m1 (String d r)) Hc) as Hk.
  rewrite (startsWith_inj _ _ _ Hk Hm). simpl. done.
Qed.

(** A hex string of at most 64 digits is read as a value below 2^256. *)
Lemma parseValue_hex_range value v :
  isHex (trim value) = true → (String.length (trim value) ≤ 66)%nat →
  parseValue value = Normal v → 0 ≤ v < 2 ^ 256.
Proof.
  unfold parseValue. pose proof (trim_idem value) as Hidem.
  destruct (trim value) as [|c0 [|c1 ds]] eqn:E; try done.
  intros Hhex Hlen. rewrite Hhex. simpl truthy_string. cbv iota. simpl negb. cbv iota.
  unfold BigInt. rewrite (StringToBigInt_trimmed _ _ Hidem).
  simpl in Hhex.
  destruct (Ascii.eqb_spec c0 "0") as [->|]; [|done].
  destruct (Ascii.eqb_spec c1 "x") as [->|]; [|done].
  unfold StrIntegerLiteral. simpl nonDecimalPrefix. cbv iota beta.
  destruct ds as [|d ds]; [done|]. unfold digits.
  destruct (digitsFrom 16 0 (String d ds)) as [w|] eqn:Hd; [|done].
  intros [= <-]. apply digitsFrom_bounds in Hd; [|lia|lia].
  simpl String.length in Hlen.
  assert (16 ^ Z.of_nat (String.length (String d ds)) ≤ 16 ^ 64) as Hpow.
  { apply Z.pow_le_mono_r; [lia|]. simpl String.length. lia. }
  change (16 ^ 64) with (2 ^ 256) in Hpow. lia.
Qed.

End SignAndRange.

Section NormalizerTheorems.

Variable JSON_parse : string → option value.

Lemma parsedUserOp_cases st :
  (∃ op, parsedUserOp JSON_parse st = Some op
         ∧ Forall2 (λ r v, r = Normal v) (int_results JSON_parse st) (int_fields op)
         ∧ Forall2 (λ r h, r = Normal h) (hex_results JSON_parse st) (hex_fields op))
  ∨ (parsedUserOp JSON_parse st = None
     ∧ (Exists (λ r, is_throw r = true) (int_results JSON_parse st)
        ∨ Exists (λ r, is_throw r = true) (hex_results JSON_parse st))).
Proof.
  destruct (parsedUserOp_assemble JSON_parse st) as [v_sender [[Hn He]| ->]].
  { right. auto. }
  destruct (assemble_cases v_sender _ _ (int_results_length JSON_parse st)
              (hex_results_length JSON_parse st))
    as [(op & -> & _ & Hi & Hh)|[[e ->] Hex]].
  - left. by exists op.
  - right. done.
Qed.

Lemma Forall2_Normal_no_throw {A} (rs : list (completion A)) vs :
  Forall2 (λ r v, r = Normal v) rs vs → ¬ Exists (λ r, is_throw r = true) rs.
Proof.
  induction 1 as [|r v rs vs -> _ IH]; intros Hex; inversion Hex; subst; auto.
  done.
Qed.

(** A produced record holds the parsed value of every integer and
    byte-string field. *)
Lemma normalization_facts_for_record st op :
  parsedUserOp JSON_parse st = Some op →
  Forall2 (λ r v, r = Normal v) (int_results JSON_parse st) (int_fields op)
  ∧ Forall2 (λ r h, r = Normal h) (hex_results JSON_parse st) (hex_fields op).
Proof.
  intros Hop.
  destruct (parsedUserOp_cases st) as [(op' & Hop' & Hi & Hh)|[Hn Hex]];
    [|congruence].
  by simplify_eq.
Qed.

Lemma own_prop_missing props k : has_own props k = false → own_prop props k = VUndefined.
Proof.
  induction props as [|[k' v] props IH]; simpl; [done|].
  destruct (String.eqb k' k); [done|]. apply IH.
Qed.

End NormalizerTheorems.

(** C1, as stated, fails: in fields mode a sender that is no address
    ("xyz", every other input at its default) still yields a record. *)
Lemma malformed_sender_is_accepted :
  let st := Build_FormState fields "" "xyz" "" "0x" "0x" "" "" "" "" "" "0x" "0x" in
  Spec.wellFormedAddress (in_sender st) = false
  ∧ parsedUserOp (λ _, None) st
    = Some (Build_UserOpV06 (VString "xyz") 0 "0x" "0x" 0 0 0 0 0 "0x" "0x")
  ∧ ¬ (∀ st', Spec.wellFormedAddress (in_sender st') = false →
         parsedUserOp (λ _, None) st' = None).
Proof.
  split; [reflexivity|]. split; [reflexivity|].
  intros H.
  by specialize (H (Build_FormState fields "" "xyz" "" "0x" "0x" "" "" "" "" "" "0x" "0x")
                   eq_refl).
Qed.

(** C1 (amended): normalisation fails as a unit over the integer and
    byte-string fields.  In both modes the result is [null] exactly when
    some integer field or some byte-string field fails to parse, and
    otherwise the record holds the parsed value of every one of them; in
    raw mode a JSON syntax error, and a missing integer or byte-string
    key, make the result [null].  The sender is copied unchecked. *)
Theorem normalization_fails_as_a_unit (JSON_parse : string → option value) (st : FormState) :
  (parsedUserOp JSON_parse st = None ↔
     Exists (λ r, is_throw r = true) (int_results JSON_parse st)
     ∨ Exists (λ r, is_throw r = true) (hex_results JSON_parse st))
  ∧ (∀ op, parsedUserOp JSON_parse st = Some op →
       Forall2 (λ r v, r = Normal v) (int_results JSON_parse st) (int_fields op)
       ∧ Forall2 (λ r h, r = Normal h) (hex_results JSON_parse st) (hex_fields op))
  ∧ (inputMode st = raw → JSON_parse (rawInput st) = None →
     parsedUserOp JSON_parse st = None)
  ∧ (∀ props k, inputMode st = raw → JSON_parse (rawInput st) = Some (VObject props) →
       k ∈ int_keys ++ hex_keys → has_own props k = false →
       parsedUserOp JSON_parse st = None)
  ∧ (∀ op, inputMode st = fields → parsedUserOp JSON_parse st = Some op →
       sender op = VString (in_sender st))
  ∧ (∀ op props, inputMode st = raw →
       JSON_parse (rawInput st) = Some (VObject props) →
       parsedUserOp JSON_parse st = Some op →
       sender op = own_prop props "sender").
Proof.
  assert (parsedUserOp JSON_parse st = None ↔
     Exists (λ r, is_throw r = true) (int_results JSON_parse st)
     ∨ Exists (λ r, is_throw r = true) (hex_results JSON_parse st)) as Hiff.
  { destruct (parsedUserOp_cases JSON_parse st) as [(op & Hop & Hi & Hh)|[Hn Hex]].
    - split; [congruence|].
      intros [Hex|Hex]; exfalso;
        [apply (Forall2_Normal_no_throw _ _ Hi Hex)
        |apply (Forall2_Normal_no_throw _ _ Hh Hex)].
    - done. }
  split; [done|]. split; [|split; [|split; [|split]]].
  - apply normalization_facts_for_record.
  - intros Hmode Hjson. unfold parsedUserOp, parseUserOpFromRaw, parseUserOpFromRaw_body.
    by rewrite Hmode, Hjson.
  - intros props k Hmode Hjson Hk Hmiss. apply Hiff.
    unfold int_results, int_sources, hex_results. rewrite Hmode, Hjson.
    apply elem_of_app in Hk as [Hk|Hk]; [left|right].
    + rewrite <- list_fmap_compose. apply Exists_fmap, Exists_exists.
      exists k. split; [done|]. simpl. by rewrite (own_prop_missing _ _ Hmiss).
    + apply Exists_fmap, Exists_exists.
      exists k. split; [done|]. simpl. by rewrite (own_prop_missing _ _ Hmiss).
  - intros op. apply sender_of_record_fields.
  - intros op props. apply sender_of_record_raw.
Qed.

(** The amended C1 on a raw-mode input whose JSON text parses to an object
    without a [nonce] member, on a fields-mode form whose sender is no
    address, and on a raw-mode object whose sender is a number. *)
Lemma normalization_fails_as_a_unit_witness :
  parsedUserOp
    (λ _, Some (VObject [("sender", VString "0xabc"); ("initCode", VString "0x")]))
    (Build_FormState raw "{...}" "" "" "" "" "" "" "" "" "" "" "")
  = None
  ∧ (∃ op, parsedUserOp (λ _, None)
             (Build_FormState fields "" " xyz " "7" "0x" "0x" "" "" "" "" "" "0x" "0x")
           = Some op
         ∧ sender op = VString " xyz ")
  ∧ (∃ op, parsedUserOp (λ _, Some (VObject [("sender", VNumber "5"); ("nonce", VNumber "7");
                 ("initCode", VString "0x"); ("callData", VString "0xb61d27f6");
                 ("callGasLimit", VString "0x5208");
                 ("verificationGasLimit", VString "100000n");
                 ("preVerificationGas", VNumber "21000");
                 ("maxFeePerGas", VString " 30 ");
                 ("maxPriorityFeePerGas", VString "");
                 ("paymasterAndData", VString "0x");
                 ("signature", VString "0xdeadbeef")]))
             (Build_FormState raw "{...}" "" "" "" "" "" "" "" "" "" "" "")
           = Some op
         ∧ sender op = VNumber "5").
Proof.
  split; [|split].
  - apply (proj1 (proj2 (proj2 (proj2 (normalization_fails_as_a_unit
           (λ _, Some (VObject [("sender", VString "0xabc"); ("initCode", VString "0x")]))
           (Build_FormState raw "{...}" "" "" "" "" "" "" "" "" "" "" "")))))
         [("sender", VString "0xabc"); ("initCode", VString "0x")] "nonce");
      [reflexivity|reflexivity|constructor|reflexivity].
  - eexists. split; [reflexivity|].
    apply (proj1 (proj2 (proj2 (proj2 (proj2 (normalization_fails_as_a_unit
           (λ _, None)
           (Build_FormState fields "" " xyz " "7" "0x" "0x" "" "" "" "" "" "0x" "0x")))))));
      reflexivity.
  - eexists. split; [reflexivity|].
    apply (proj2 (proj2 (proj2 (proj2 (proj2 (normalization_fails_as_a_unit
           (λ _, Some (VObject [("sender", VNumber "5"); ("nonce", VNumber "7");
                 ("initCode", VString "0x"); ("callData", VString "0xb61d27f6");
                 ("callGasLimit", VString "0x5208");
                 ("verificationGasLimit", VString "100000n");
                 ("preVerificationGas", VNumber "21000");
                 ("maxFeePerGas", VString " 30 ");
                 ("maxPriorityFeePerGas", VString "");
                 ("paymasterAndData", VString "0x");
                 ("signature", VString "0xdeadbeef")]))
           (Build_FormState raw "{...}" "" "" "" "" "" "" "" "" "" "" "")))))) _
           [("sender", VNumber "5"); ("nonce", VNumber "7");
                 ("initCode", VString "0x"); ("callData", VString "0xb61d27f6");
                 ("callGasLimit", VString "0x5208");
                 ("verificationGasLimit", VString "100000n");
                 ("preVerificationGas", VNumber "21000");
                 ("maxFeePerGas", VString " 30 ");
                 ("maxPriorityFeePerGas", VString "");
                 ("paymasterAndData", VString "0x");
                 ("signature", VString "0xdeadbeef")]);
      reflexivity.
Defined.

(** C3, as stated, fails: the nonce text "-5" yields a record whose nonce
    is negative, and a hex literal of 65 digits one whose nonce is 2^256. *)
Lemma integer_field_out_of_range :
  let st_neg := Build_FormState fields "" "0xabc" "-5" "0x" "0x" "" "" "" "" "" "0x" "0x" in
  let st_big := Build_FormState fields "" "0xabc"
      "0x10000000000000000000000000000000000000000000000000000000000000000"
      "0x" "0x" "" "" "" "" "" "0x" "0x" in
  (nonce <$> parsedUserOp (λ _, None) st_neg) = Some (-5)
  ∧ (nonce <$> parsedUserOp (λ _, None) st_big) = Some (2 ^ 256)
  ∧ ¬ (∀ st op, parsedUserOp (λ _, None) st = Some op →
         Forall (λ v, 0 ≤ v < 2 ^ 256) (int_fields op)).
Proof.
  split; [reflexivity|]. split; [vm_compute; reflexivity|].
  intros H.
  specialize (H (Build_FormState fields "" "0xabc" "-5" "0x" "0x" "" "" "" "" "" "0x" "0x")
                _ eq_refl).
  apply Forall_cons_1 in H as [[H _] _]. simpl in H. lia.
Qed.

(** C3 (amended): every integer field of a produced record is the value
    [parseValue] reads from the field's input text (the form input, or
    [String] of the JSON member).  It is negative only when the trimmed
    text starts with a minus sign, and it lies in [0, 2^256) when the
    trimmed text is a hex string of at most 64 digits; no sign or range
    check is made beyond that. *)
Theorem integer_fields_are_unchecked_BigInt_values
    (JSON_parse : string → option value) (st : FormState) (op : UserOpV06) :
  parsedUserOp JSON_parse st = Some op →
  Forall2 (λ src v, ∃ text, src = Normal text ∧ parseValue text = Normal v
             ∧ (v < 0 → startsWith "-" (trim text) = true)
             ∧ (isHex (trim text) = true → (String.length (trim text) ≤ 66)%nat →
                0 ≤ v < 2 ^ 256))
    (int_sources JSON_parse st) (int_fields op).
Proof.
  intros Hop.
  destruct (normalization_facts_for_record JSON_parse st op Hop) as [Hi _].
  unfold int_results in Hi. apply Forall2_fmap_l in Hi.
  eapply Forall2_impl; [exact Hi|]. simpl. intros src v Hsrc.
  destruct src as [text|e]; [|done]. exists text. simpl in Hsrc.
  split_and!; [done|done|by apply parseValue_negative|].
  intros Hhex Hlen. by eapply parseValue_hex_range.
Qed.

(** The amended C3 on a raw-mode input whose JSON text parses to
    [sample_userop_json]. *)
Lemma integer_fields_are_unchecked_BigInt_values_witness :
  let st := Build_FormState raw "{...}" "" "" "" "" "" "" "" "" "" "" "" in
  ∃ op, parsedUserOp (λ _, Some sample_userop_json) st = Some op
        ∧ Forall2 (λ src v, ∃ text, src = Normal text ∧ parseValue text = Normal v
                     ∧ (v < 0 → startsWith "-" (trim text) = true)
                     ∧ (isHex (trim text) = true → (String.length (trim text) ≤ 66)%nat →
                        0 ≤ v < 2 ^ 256))
            (int_sources (λ _, Some sample_userop_json) st) (int_fields op).
Proof.
  eexists. split; [reflexivity|].
  apply (integer_fields_are_unchecked_BigInt_values (λ _, Some sample_userop_json)).
  reflexivity.
Defined.

(* ================================================================== *)
(** * C10: hash comparison *)
(* ================================================================== *)

Section HashComparison.

Lemma sameHexLetter_sound c d :
  sameHexLetter c d = true →
  toLowerCaseUnit c = toLowerCaseUnit d ∧ isWhiteSpace c = isWhiteSpace d.
Proof.
  assert (∀ a b, between 65 70 a = true → (code b =? code a + 32)%N = true →
            toLowerCaseUnit a = toLowerCaseUnit b ∧ isWhiteSpace a = isWhiteSpace b) as Hcase.
  { intros a b Ha Hb. apply N.eqb_eq in Hb.
    assert (b = ascii_of_N (code a + 32)) as ->.
    { rewrite <- Hb. symmetry. apply ascii_N_embedding. }
    destruct a as [[] [] [] [] [] [] [] []]; vm_compute in Ha; try discriminate;
      by vm_compute. }
  unfold sameHexLetter. intros H.
  apply orb_true_iff in H as [H|H]; [apply orb_true_iff in H as [H|H]|].
  - by apply Ascii.eqb_eq in H as ->.
  - apply andb_true_iff in H as [Ha Hb]. by apply Hcase.
  - apply andb_true_iff in H as [Ha Hb].
    destruct (Hcase _ _ Ha Hb) as [-> ->]. done.
Qed.

Lemma hexCaseVariant_toLowerCase s t :
  hexCaseVariant s t = true → toLowerCase s = toLowerCase t.
Proof.
  revert t. induction s as [|c s IH]; intros [|d t]; simpl; try done.
  intros [Hc Hs]%andb_true_iff.
  destruct (sameHexLetter_sound _ _ Hc) as [-> _]. by rewrite (IH _ Hs).
Qed.

Lemma hexCaseVariant_truthy s t :
  hexCaseVariant s t = true → truthy_string s = truthy_string t.
Proof. by destruct s, t. Qed.

Lemma hexCaseVariant_trimStart s t :
  hexCaseVariant s t = true → hexCaseVariant (trimStart s) (trimStart t) = true.
Proof.
  revert t. induction s as [|c s IH]; intros [|d t]; simpl; try done.
  intros H. pose proof H as [Hc Hs]%andb_true_iff.
  destruct (sameHexLetter_sound _ _ Hc) as [_ <-].
  destruct (isWhiteSpace c); [by apply IH|done].
Qed.

Lemma hexCaseVariant_trimEnd s t :
  hexCaseVariant s t = true → hexCaseVariant (trimEnd s) (trimEnd t) = true.
Proof.
  revert t. induction s as [|c s IH]; intros [|d t]; simpl; try done.
  intros [Hc Hs]%andb_true_iff.
  destruct (sameHexLetter_sound _ _ Hc) as [_ <-].
  specialize (IH _ Hs).
  destruct (trimEnd s) as [|c1 r1], (trimEnd t) as [|d1 r2]; try done.
  - destruct (isWhiteSpace c); [done|]. simpl. by rewrite Hc.
  - simpl in *. by rewrite Hc, IH.
Qed.

Lemma hexCaseVariant_normalized e e' :
  hexCaseVariant e e' = true → normalizedExpectedHash e = normalizedExpectedHash e'.
Proof.
  intros H. unfold normalizedExpectedHash, trim.
  by apply hexCaseVariant_toLowerCase, hexCaseVariant_trimEnd, hexCaseVariant_trimStart.
Qed.

Lemma toLowerCase_truthy s : truthy_string (toLowerCase s) = truthy_string s.
Proof. by destruct s. Qed.

End HashComparison.

(** C10: the verdict of the hash comparison is the same for any two
    expected hashes, and any two computed hashes, that differ only in the
    case of hex letters, and is unchanged by white space added around the
    expected hash; a verdict is produced only when the expected hash is
    non-empty and a non-empty computed hash is present, and it is positive
    exactly when the trimmed expected hash and the computed hash agree up
    to case. *)
Theorem hash_comparison_ignores_case_and_space
    (e e' : string) (c c' : option string) (w1 w2 : string) :
  hexCaseVariant e e' = true → hexCaseVariant_opt c c' = true →
  allWhiteSpace w1 = true → allWhiteSpace w2 = true →
  hashesMatch (w1 +:+ e' +:+ w2) c' = hashesMatch e c
  ∧ hashComparison (w1 +:+ e' +:+ w2) c' = hashComparison e c
  ∧ (∀ verdict, hashComparison e c = Some verdict →
       e ≠ "" ∧ ∃ h, c = Some h ∧ h ≠ "")
  ∧ (hashComparison e c = Some true ↔
       trim e ≠ "" ∧ ∃ h, c = Some h ∧ toLowerCase (trim e) = toLowerCase h).
Proof.
  intros He Hc Hw1 Hw2.
  assert (normalizedExpectedHash (w1 +:+ e' +:+ w2) = normalizedExpectedHash e) as Hn.
  { unfold normalizedExpectedHash at 1. rewrite trim_surrounding by done.
    symmetry. by apply hexCaseVariant_normalized. }
  assert (normalizedComputedHash c' = normalizedComputedHash c) as Hm.
  { destruct c as [h|], c' as [h'|]; simpl in *; try done.
    f_equal. symmetry. by apply hexCaseVariant_toLowerCase. }
  assert (hashesMatch (w1 +:+ e' +:+ w2) c' = hashesMatch e c) as Hmatch.
  { unfold hashesMatch. by rewrite Hn, Hm. }
  split; [done|]. split; [|split].
  - unfold hashComparison. rewrite Hn, Hmatch.
    destruct c as [h|], c' as [h'|]; simpl in *; try done.
    by rewrite (hexCaseVariant_truthy _ _ Hc).
  - intros verdict. unfold hashComparison, normalizedExpectedHash.
    rewrite toLowerCase_truthy.
    destruct e as [|a e]; [done|].
    destruct c as [[|b h]|]; simpl; rewrite ?andb_false_r; try done.
    intros _. split; [done|]. by eexists.
  - unfold hashComparison, hashesMatch, normalizedExpectedHash, normalizedComputedHash.
    rewrite toLowerCase_truthy.
    destruct (truthy_string (trim e)) eqn:Et; cycle 1.
    { destruct (trim e); [|done]. split; [done|]. by intros [? _]. }
    assert (trim e ≠ "") as Hne by (by destruct (trim e)).
    destruct c as [h|]; cycle 1.
    { split; [done|]. by intros [_ (h & ? & _)]. }
    cbn [fmap option_fmap option_map andb]. rewrite toLowerCase_truthy.
    destruct (truthy_string h) eqn:Eh; cbn [andb].
    + destruct (String.eqb_spec (toLowerCase (trim e)) (toLowerCase h)) as [Heq|Hneq].
      * split; [|done]. intros _. split; [done|]. by eexists.
      * split; [done|]. intros [_ (h' & [= <-] & ?)]. done.
    + split; [done|]. intros [_ (h' & [= <-] & Heq)].
      destruct h; [|done]. by destruct (trim e).
Qed.

(** C10 on a mixed-case expected hash with surrounding white space. *)
Lemma hash_comparison_ignores_case_and_space_witness :
  hashComparison "  0xAB12cd  " (Some "0xAb12CD") = hashComparison "0xab12cd" (Some "0xab12cd")
  ∧ hashComparison "0xab12cd" (Some "0xab12cd") = Some true
  ∧ hashComparison "0xab12ce" (Some "0xab12cd") = Some false.
Proof.
  split; [|split; reflexivity].
  exact (proj1 (proj2 (hash_comparison_ignores_case_and_space
           "0xab12cd" "0xAB12cd" (Some "0xab12cd") (Some "0xAb12CD") "  " "  "
           eq_refl eq_refl eq_refl eq_refl))).
Defined.

(* ================================================================== *)
(** * Promise.all collects by position *)
(* ================================================================== *)

Section PromiseFacts.

Context {A : Type}.

Lemma settle_all_fulfilled (vs : list A) order slots :
  foldl (settle (Fulfilled <$> vs)) (slots, None) order = (filled vs slots order, None).
Proof.
  revert slots. induction order as [|i order IH]; intros slots; [done|].
  simpl. unfold settle at 2. simpl. rewrite list_lookup_fmap.
  destruct (vs !! i); simpl; apply IH.
Qed.

Lemma filled_length (vs : list A) order slots :
  length (filled vs slots order) = length slots.
Proof.
  revert slots. induction order as [|i order IH]; intros slots; [done|].
  simpl. rewrite IH. destruct (vs !! i); [apply length_insert|done].
Qed.

Lemma filled_lookup_not_in (vs : list A) order slots j :
  j ∉ order → filled vs slots order !! j = slots !! j.
Proof.
  revert slots. induction order as [|i order IH]; intros slots Hj; [done|].
  apply not_elem_of_cons in Hj as [Hne Hj]. simpl. rewrite IH by done.
  destruct (vs !! i); [|done]. by apply list_lookup_insert_ne.
Qed.

Lemma filled_lookup_in (vs : list A) order slots j v :
  length slots = length vs → vs !! j = Some v → j ∈ order →
  filled vs slots order !! j = Some (Some v).
Proof.
  revert slots. induction order as [|i order IH]; intros slots Hlen Hv Hj.
  { by apply elem_of_nil in Hj. }
  simpl. destruct (decide (j ∈ order)) as [Hin|Hnot].
  - apply IH; [|done|done]. destruct (vs !! i); [by rewrite length_insert|done].
  - apply elem_of_cons in Hj as [->|]; [|done].
    rewrite filled_lookup_not_in by done. rewrite Hv.
    apply list_lookup_insert_eq. rewrite Hlen. by eapply lookup_lt_Some.
Qed.

Lemma completion_order_elem latency n i :
  i ∈ completion_order latency n ↔ (i < n)%nat.
Proof.
  unfold completion_order. rewrite merge_sort_Permutation, elem_of_seq. lia.
Qed.

(** When every promise is fulfilled, [Promise.all] is fulfilled with the
    values in the order of the promises, whatever the completion order. *)
Lemma promise_all_fulfilled latency (vs : list A) :
  promise_all (completion_order latency (length vs)) (Fulfilled <$> vs) = Fulfilled vs.
Proof.
  unfold promise_all. rewrite settle_all_fulfilled, length_fmap.
  set (order := completion_order latency (length vs)).
  assert (filled vs (replicate (length vs) None) order = Some <$> vs) as ->.
  { apply list_eq. intros j. rewrite list_lookup_fmap.
    destruct (vs !! j) as [v|] eqn:Hv; simpl.
    - apply filled_lookup_in; [by rewrite length_replicate|done|].
      apply completion_order_elem. by eapply lookup_lt_Some.
    - apply lookup_ge_None. rewrite filled_length, length_replicate.
      by apply lookup_ge_None. }
  by rewrite mapM_fmap_Some.
Qed.

End PromiseFacts.

(* ================================================================== *)
(** * C5, C6, C7, C8: the enricher *)
(* ================================================================== *)

(** Induction on values through arrays. *)
Lemma value_array_ind (P : value → Prop) :
  (∀ elems, Forall P elems → P (VArray elems)) →
  (∀ v, (∀ elems, v ≠ VArray elems) → P v) →
  ∀ v, P v.
Proof.
  intros Harr Hleaf. fix IH 1. intros v.
  destruct v as [ | | | | | | elems | | ]; try (by apply Hleaf).
  apply Harr. induction elems as [|a l IHl]; constructor; [apply IH|apply IHl].
Qed.

Section EnricherFacts.

Variable Client : Type.
Variable autoload : Client → value → autoload_options → completion (option Abi).
Variable decodeFunctionData : Abi → string → completion DecodedFunctionData.
Variable client : Client.

Local Abbreviation enrichArg' := (enrichArg Client autoload decodeFunctionData).
Local Abbreviation enrichArgs' := (enrichArgs Client autoload decodeFunctionData).
Local Abbreviation enriched' := (enriched autoload decodeFunctionData client).
Local Abbreviation enrich_object' := (enrich_object Client autoload decodeFunctionData client).
Local Abbreviation decode_inner' := (decode_inner Client autoload decodeFunctionData client).

(** Every callback settles, fulfilled with [enriched]. *)
Lemma enrichArg_fulfilled latency arg :
  enrichArg' latency client arg = Fulfilled (enriched' arg).
Proof.
  induction arg as [elems IH|v Hv] using value_array_ind.
  - simpl.
    assert (map (enrichArg' latency client) elems = Fulfilled <$> map enriched' elems) as ->.
    { induction IH as [|a l Ha _ IHl]; simpl; [done|]. by rewrite Ha, IHl. }
    replace (length elems) with (length (map enriched' elems)) by apply length_map.
    by rewrite promise_all_fulfilled.
  - destruct v; try done. by destruct (Hv elems).
Qed.

Lemma enrichArgs_fulfilled latency args :
  enrichArgs' latency client args = Fulfilled (map enriched' args).
Proof.
  unfold enrichArgs.
  assert (map (enrichArg' latency client) args = Fulfilled <$> map enriched' args) as ->.
  { induction args as [|a l IHl]; simpl; [done|].
    by rewrite enrichArg_fulfilled, IHl. }
  replace (length args) with (length (map enriched' args)) by apply length_map.
  by rewrite promise_all_fulfilled.
Qed.

Lemma enrich_object_annotation props :
  annotation_of (VObject props) (enrich_object' props).
Proof.
  unfold enrich_object. destruct (call_candidate props) as [[target d]|]; [|constructor].
  unfold decode_inner.
  destruct (autoload client target provider_only) as [[abi|]|e]; simpl; try constructor.
  destruct (decodeFunctionData abi d) as [decoded|e]; simpl; constructor.
Qed.

Lemma enriched_annotation arg : annotation_of arg (enriched' arg).
Proof.
  induction arg as [elems IH|v Hv] using value_array_ind.
  - simpl. constructor. induction IH; simpl; constructor; auto.
  - destruct v; try constructor.
    + by destruct (Hv elems).
    + apply enrich_object_annotation.
Qed.

(** What a successful nested decode attaches. *)
Lemma enrich_object_success props target d abi decoded :
  call_candidate props = Some (target, d) →
  autoload client target provider_only = Normal (Some abi) →
  decodeFunctionData abi d = Normal decoded →
  enrich_object' props =
    VObject (set_prop props "decodedCall"
      (VDecodedCall (dfd_functionName decoded) (dfd_args decoded)
         (inputs_of (find (is_function_named (dfd_functionName decoded)) abi)))).
Proof.
  intros Hc Ha Hd. unfold enrich_object, decode_inner. rewrite Hc, Ha. simpl.
  by rewrite Hd.
Qed.

(** What a failed nested decode leaves. *)
Lemma enrich_object_failure props target d :
  call_candidate props = Some (target, d) →
  (∃ e, autoload client target provider_only = Throw e)
  ∨ autoload client target provider_only = Normal None
  ∨ (∃ abi e, autoload client target provider_only = Normal (Some abi)
              ∧ decodeFunctionData abi d = Throw e) →
  enrich_object' props = VObject props.
Proof.
  intros Hc Hfail. unfold enrich_object, decode_inner. rewrite Hc.
  destruct Hfail as [[e ->]|[->|(abi & e & -> & Hd)]]; simpl; try done.
  by rewrite Hd.
Qed.

Lemma node_at_enriched args path v :
  node_at args path = Some v →
  node_at (map enriched' args) path = Some (enriched' v).
Proof.
  revert args. induction path as [|i path IH]; intros args; [done|].
  simpl. destruct path as [|j path].
  - intros H. by rewrite list_lookup_fmap, H.
  - rewrite list_lookup_fmap.
    destruct (args !! i) as [[ | | | | | | elems | | ]|]; simpl; try done.
    apply IH.
Qed.

Lemma is_function_named_spec fn item :
  is_function_named fn item = true ↔ item_type item = "function" ∧ item_name item = Some fn.
Proof.
  unfold is_function_named. rewrite andb_true_iff, String.eqb_eq.
  destruct (item_name item) as [n|].
  - rewrite String.eqb_eq. split; intros [? ?]; split; congruence.
  - split; intros [? ?]; done.
Qed.

(** [find] returns the first element that passes the test. *)
Lemma find_first {T} (f : T → bool) l x :
  find f l = Some x ↔
  ∃ pre post, l = pre ++ x :: post ∧ f x = true ∧ Forall (λ y, f y = false) pre.
Proof.
  induction l as [|a l IH]; simpl.
  - split; [done|]. intros (pre & post & H & _). by destruct pre.
  - destruct (f a) eqn:Ha.
    + split.
      * intros [= <-]. exists [], l. by repeat split.
      * intros (pre & post & H & Hx & Hpre). destruct pre as [|b pre].
        -- by injection H as ->.
        -- injection H as -> _. apply Forall_cons_1 in Hpre as [Hb _]. congruence.
    + rewrite IH. split.
      * intros (pre & post & -> & Hx & Hpre). exists (a :: pre), post.
        repeat split; [done|by constructor].
      * intros (pre & post & H & Hx & Hpre). destruct pre as [|b pre].
        -- injection H as -> _. congruence.
        -- injection H as -> ->. apply Forall_cons_1 in Hpre as [_ Hpre].
           by exists pre, post.
Qed.

Lemma find_nothing {T} (f : T → bool) l :
  find f l = None ↔ Forall (λ y, f y = false) l.
Proof.
  induction l as [|a l IH]; simpl; [by split|].
  destruct (f a) eqn:Ha.
  - split; [done|]. intros [? _]%Forall_cons_1. congruence.
  - rewrite IH. split; [by constructor|]. by intros [_ ?]%Forall_cons_1.
Qed.

(** C5 (amended): enrichment walks the top-level arguments and, through
    arrays only, the elements of arrays at any depth.  Whenever such a
    node is an object exposing a truthy [target] or [to] and, under
    [callData] or [data], a hex string other than "0x", the interface of
    that address is resolved afresh and the bytes are decoded against it;
    on success the node carries a [decodedCall] with the function name,
    the arguments as the decoder returned them and the declared inputs.
    The arguments of a decoded call and the fields of objects are not
    walked. *)
Theorem array_reachable_calls_are_decoded
    (latency : list value → nat → nat) (args : list value) (path : list nat)
    (props : list (string * value)) (target : value) (d : string)
    (abi : Abi) (decoded : DecodedFunctionData) :
  node_at args path = Some (VObject props) →
  call_candidate props = Some (target, d) →
  autoload client target provider_only = Normal (Some abi) →
  decodeFunctionData abi d = Normal decoded →
  ∃ res, enrichArgs' latency client args = Fulfilled res
    ∧ node_at res path =
        Some (VObject (set_prop props "decodedCall"
                (VDecodedCall (dfd_functionName decoded) (dfd_args decoded)
                   (inputs_of (find (is_function_named (dfd_functionName decoded)) abi))))).
Proof.
  intros Hnode Hc Ha Hd. eexists. split; [apply enrichArgs_fulfilled|].
  rewrite (node_at_enriched _ _ _ Hnode). simpl.
  by rewrite (enrich_object_success _ _ _ _ _ Hc Ha Hd).
Qed.

(** A node that is neither an array nor a call candidate is returned as
    it is. *)
Lemma enriched_other v :
  (∀ elems, v ≠ VArray elems) →
  (∀ props, v = VObject props → call_candidate props = None) →
  enriched' v = v.
Proof.
  intros Harr Hobj. destruct v; try done.
  - by destruct (Harr elems).
  - simpl. unfold enrich_object. by rewrite (Hobj props eq_refl).
Qed.

(** The two readings of "no item before it matches". *)
Lemma is_function_named_Forall fn (l : Abi) :
  Forall (λ it, is_function_named fn it = false) l ↔
  Forall (λ it, ¬ (item_type it = "function" ∧ item_name it = Some fn)) l.
Proof.
  apply Forall_iff. intros it.
  rewrite <- is_function_named_spec. by destruct (is_function_named fn it).
Qed.

(** The inputs [find] selects are those of the first matching item. *)
Lemma inputs_of_first_match fn (abi pre post : Abi) item :
  abi = pre ++ item :: post →
  item_type item = "function" → item_name item = Some fn →
  Forall (λ it, ¬ (item_type it = "function" ∧ item_name it = Some fn)) pre →
  inputs_of (find (is_function_named fn) abi) = item_inputs item.
Proof.
  intros Habi Hty Hname Hpre.
  assert (find (is_function_named fn) abi = Some item) as ->; [|done].
  apply find_first. exists pre, post. split_and!; [done| |].
  - by apply is_function_named_spec.
  - by apply is_function_named_Forall.
Qed.

Lemma inputs_of_no_match fn (abi : Abi) :
  Forall (λ it, ¬ (item_type it = "function" ∧ item_name it = Some fn)) abi →
  inputs_of (find (is_function_named fn) abi) = None.
Proof.
  intros H. assert (find (is_function_named fn) abi = None) as ->; [|done].
  by apply find_nothing, is_function_named_Forall.
Qed.

(** The top-level decode when the resolver and the decoder answer. *)
Lemma queryFn_success latency userOp chainId abi decoded :
  truthy (sender userOp) = true → truthy_string (callData userOp) = true →
  callData userOp ≠ "0x" →
  autoload client (sender userOp) (env_loaders_follow_proxies chainId)
    = Normal (Some abi) →
  decodeFunctionData abi (callData userOp) = Normal decoded →
  queryFn autoload decodeFunctionData latency (Some client) (Some userOp) chainId
  = Fulfilled (Some (Build_DecodedCallWithTypes (dfd_functionName decoded)
                       (map enriched' <$> dfd_args decoded)
                       (inputs_of (find (is_function_named (dfd_functionName decoded))
                                     abi)))).
Proof.
  intros Hs Hcd Hne Ha Hd. unfold queryFn, queryFn_body.
  rewrite Hs, Hcd. destruct (String.eqb_spec (callData userOp) "0x"); [done|].
  simpl. rewrite Ha, Hd.
  destruct (dfd_args decoded) as [a|]; [|done]. by rewrite enrichArgs_fulfilled.
Qed.

End EnricherFacts.

(** C7: whatever happens to the nested lookups, the enriched argument
    list exists and has the length of the argument list.  A call
    candidate, at the top level or inside arrays at any depth, whose
    resolution throws or yields no interface, or whose decoding throws,
    is returned as it was.  Every other node comes back as usual: a
    candidate whose resolution and decoding succeed carries its
    [decodedCall], a node that is neither an array nor a candidate is
    returned as it is, and an array keeps its length.  The decode of the
    parent call succeeds with that argument list. *)
Theorem nested_failure_degrades_gracefully {Client : Type}
    (autoload : Client → value → autoload_options → completion (option Abi))
    (decodeFunctionData : Abi → string → completion DecodedFunctionData)
    (client : Client)
    (latency : list value → nat → nat) (args : list value) :
  ∃ res,
    enrichArgs Client autoload decodeFunctionData latency client args = Fulfilled res
    ∧ length res = length args
    ∧ (∀ path props target d,
         node_at args path = Some (VObject props) →
         call_candidate props = Some (target, d) →
         (∃ e, autoload client target provider_only = Throw e)
         ∨ autoload client target provider_only = Normal None
         ∨ (∃ abi e, autoload client target provider_only = Normal (Some abi)
                     ∧ decodeFunctionData abi d = Throw e) →
         node_at res path = Some (VObject props))
    ∧ (∀ path props target d abi decoded,
         node_at args path = Some (VObject props) →
         call_candidate props = Some (target, d) →
         autoload client target provider_only = Normal (Some abi) →
         decodeFunctionData abi d = Normal decoded →
         node_at res path =
           Some (VObject (set_prop props "decodedCall"
                   (VDecodedCall (dfd_functionName decoded) (dfd_args decoded)
                      (inputs_of (find (is_function_named (dfd_functionName decoded))
                                    abi))))))
    ∧ (∀ path v,
         node_at args path = Some v →
         (∀ elems, v ≠ VArray elems) →
         (∀ props, v = VObject props → call_candidate props = None) →
         node_at res path = Some v)
    ∧ (∀ path elems,
         node_at args path = Some (VArray elems) →
         ∃ elems', node_at res path = Some (VArray elems')
                   ∧ length elems' = length elems)
    ∧ (∀ userOp chainId abi fn,
         truthy (sender userOp) = true → truthy_string (callData userOp) = true →
         callData userOp ≠ "0x" →
         autoload client (sender userOp) (env_loaders_follow_proxies chainId)
           = Normal (Some abi) →
         decodeFunctionData abi (callData userOp)
           = Normal (Build_DecodedFunctionData fn (Some args)) →
         queryFn autoload decodeFunctionData latency (Some client) (Some userOp) chainId
           = Fulfilled (Some (Build_DecodedCallWithTypes fn (Some res)
                                (inputs_of (find (is_function_named fn) abi))))).
Proof.
  exists (map (enriched autoload decodeFunctionData client) args).
  split; [apply enrichArgs_fulfilled|]. split; [apply length_map|].
  split_and!.
  - intros path props target d Hnode Hc Hfail.
    rewrite (node_at_enriched _ _ _ _ _ _ _ Hnode). simpl.
    by rewrite (enrich_object_failure _ _ _ _ _ _ _ Hc Hfail).
  - intros path props target d abi decoded Hnode Hc Ha Hd.
    rewrite (node_at_enriched _ _ _ _ _ _ _ Hnode). simpl.
    by rewrite (enrich_object_success _ _ _ _ _ _ _ _ _ Hc Ha Hd).
  - intros path v Hnode Harr Hobj.
    rewrite (node_at_enriched _ _ _ _ _ _ _ Hnode).
    by rewrite enriched_other.
  - intros path elems Hnode.
    rewrite (node_at_enriched _ _ _ _ _ _ _ Hnode). simpl.
    eexists. split; [done|]. apply length_map.
  - intros userOp chainId abi fn Hs Hcd Hne Ha Hd.
    by rewrite (queryFn_success _ _ _ _ _ _ _ _ _ Hs Hcd Hne Ha Hd).
Qed.

(** C8: the parameter types attached to a decoded call, at the top level
    and for a nested call, are the inputs of the first item of the
    resolved interface, in declaration order, whose type is "function" and
    whose name is exactly the decoded function name; no inputs are
    attached when there is no such item.  Whenever the resolver and the
    decoder answer, the decoded call, at the top level and at a nested
    call candidate reached through arrays, carries these inputs; and a
    decoded call is produced in no other way. *)
Theorem parameter_types_by_first_name_match {Client : Type}
    (autoload : Client → value → autoload_options → completion (option Abi))
    (decodeFunctionData : Abi → string → completion DecodedFunctionData)
    (client : Client) :
  (∀ (abi : Abi) fn item,
     find (is_function_named fn) abi = Some item ↔
     ∃ pre post, abi = pre ++ item :: post
       ∧ (item_type item = "function" ∧ item_name item = Some fn)
       ∧ Forall (λ it, ¬ (item_type it = "function" ∧ item_name it = Some fn)) pre)
  ∧ (∀ (abi : Abi) fn,
       find (is_function_named fn) abi = None ↔
       Forall (λ it, ¬ (item_type it = "function" ∧ item_name it = Some fn)) abi)
  ∧ (∀ latency userOp chainId abi decoded,
       truthy (sender userOp) = true → truthy_string (callData userOp) = true →
       callData userOp ≠ "0x" →
       autoload client (sender userOp) (env_loaders_follow_proxies chainId)
         = Normal (Some abi) →
       decodeFunctionData abi (callData userOp) = Normal decoded →
       ∃ r,
         queryFn autoload decodeFunctionData latency (Some client) (Some userOp) chainId
           = Fulfilled (Some r)
         ∧ functionName r = dfd_functionName decoded
         ∧ inputs r = inputs_of (find (is_function_named (dfd_functionName decoded)) abi)
         ∧ (∀ pre item post,
              abi = pre ++ item :: post →
              item_type item = "function" →
              item_name item = Some (dfd_functionName decoded) →
              Forall (λ it, ¬ (item_type it = "function"
                               ∧ item_name it = Some (dfd_functionName decoded))) pre →
              inputs r = item_inputs item)
         ∧ (Forall (λ it, ¬ (item_type it = "function"
                             ∧ item_name it = Some (dfd_functionName decoded))) abi →
            inputs r = None))
  ∧ (∀ latency args path props target d abi decoded,
       node_at args path = Some (VObject props) →
       call_candidate props = Some (target, d) →
       autoload client target provider_only = Normal (Some abi) →
       decodeFunctionData abi d = Normal decoded →
       ∃ res i,
         enrichArgs Client autoload decodeFunctionData latency client args
           = Fulfilled res
         ∧ node_at res path =
             Some (VObject (set_prop props "decodedCall"
                     (VDecodedCall (dfd_functionName decoded) (dfd_args decoded) i)))
         ∧ i = inputs_of (find (is_function_named (dfd_functionName decoded)) abi)
         ∧ (∀ pre item post,
              abi = pre ++ item :: post →
              item_type item = "function" →
              item_name item = Some (dfd_functionName decoded) →
              Forall (λ it, ¬ (item_type it = "function"
                               ∧ item_name it = Some (dfd_functionName decoded))) pre →
              i = item_inputs item)
         ∧ (Forall (λ it, ¬ (item_type it = "function"
                             ∧ item_name it = Some (dfd_functionName decoded))) abi →
            i = None))
  ∧ (∀ latency userOp chainId r,
       queryFn autoload decodeFunctionData latency (Some client) (Some userOp) chainId
         = Fulfilled (Some r) →
       ∃ abi decoded,
         autoload client (sender userOp) (env_loaders_follow_proxies chainId)
           = Normal (Some abi)
         ∧ decodeFunctionData abi (callData userOp) = Normal decoded
         ∧ functionName r = dfd_functionName decoded
         ∧ inputs r = inputs_of (find (is_function_named (functionName r)) abi))
  ∧ (∀ props target d annotated,
       decode_inner Client autoload decodeFunctionData client props target d
         = Normal (Some annotated) →
       ∃ abi decoded,
         autoload client target provider_only = Normal (Some abi)
         ∧ decodeFunctionData abi d = Normal decoded
         ∧ annotated =
             VObject (set_prop props "decodedCall"
               (VDecodedCall (dfd_functionName decoded) (dfd_args decoded)
                  (inputs_of (find (is_function_named (dfd_functionName decoded)) abi)))))
  ∧ inputs_of (find (is_function_named "transfer") Demo.erc20)
    = Some [Build_AbiParameter "address" (Some "to") None;
            Build_AbiParameter "uint256" (Some "amount") None].
Proof.
  split_and!.
  - intros abi fn item. rewrite find_first.
    setoid_rewrite is_function_named_spec. by setoid_rewrite is_function_named_Forall.
  - intros abi fn. by rewrite find_nothing, is_function_named_Forall.
  - intros latency userOp chainId abi decoded Hs Hcd Hne Ha Hd.
    eexists. split; [by apply queryFn_success|]. simpl. split_and!; [done|done| |].
    + intros pre item post. apply inputs_of_first_match.
    + apply inputs_of_no_match.
  - intros latency args path props target d abi decoded Hnode Hc Ha Hd.
    eexists _, _. split; [apply enrichArgs_fulfilled|]. split_and!; [|done| |].
    + rewrite (node_at_enriched _ _ _ _ _ _ _ Hnode). simpl.
      by rewrite (enrich_object_success _ _ _ _ _ _ _ _ _ Hc Ha Hd).
    + intros pre item post. apply inputs_of_first_match.
    + apply inputs_of_no_match.
  - intros latency userOp chainId r. unfold queryFn, queryFn_body.
    destruct (negb (truthy (sender userOp)) || negb (truthy_string (callData userOp))
              || String.eqb (callData userOp) "0x"); [done|].
    destruct (autoload client (sender userOp) (env_loaders_follow_proxies chainId))
      as [[abi|]|e]; [|done|done].
    destruct (decodeFunctionData abi (callData userOp)) as [decoded|e] eqn:Hd; [|done].
    destruct (dfd_args decoded) as [a|].
    + rewrite enrichArgs_fulfilled. intros [= <-]. exists abi, decoded. by split_and!.
    + intros [= <-]. exists abi, decoded. by split_and!.
  - intros props target d annotated. unfold decode_inner.
    destruct (autoload client target provider_only) as [[abi|]|e]; simpl; [|done|done].
    destruct (decodeFunctionData abi d) as [decoded|e] eqn:Hd; simpl; [|done].
    intros [= <-]. exists abi, decoded. by split_and!.
  - reflexivity.
Qed.

(** C6: the enriched argument list has the length of the argument list,
    and position [i] holds argument [i], possibly annotated with a
    [decodedCall] (element by element inside arrays); the result is the
    same for any two completion orders of the concurrent lookups.  With
    three siblings of which only the second is a decodable call, the first
    and third are returned as they are and the second carries the
    annotation. *)
Theorem enrichArgs_preserves_arity_and_order {Client : Type}
    (autoload : Client → value → autoload_options → completion (option Abi))
    (decodeFunctionData : Abi → string → completion DecodedFunctionData)
    (client : Client)
    (latency latency' : list value → nat → nat) (args : list value) :
  (∃ res,
     enrichArgs Client autoload decodeFunctionData latency client args = Fulfilled res
     ∧ enrichArgs Client autoload decodeFunctionData latency' client args = Fulfilled res
     ∧ length res = length args
     ∧ (∀ i arg, args !! i = Some arg → ∃ r, res !! i = Some r ∧ annotation_of arg r))
  ∧ enrichArgs unit Demo.autoload Demo.decodeFunctionData latency tt
      [VBigInt 1; Demo.call "0xaa" "0xa9059cbb"; VString "0xdd"]
    = Fulfilled [VBigInt 1; Demo.annotated "0xaa" "0xa9059cbb" Demo.transfer_call;
                 VString "0xdd"].
Proof.
  split; [|by rewrite enrichArgs_fulfilled].
  exists (map (enriched autoload decodeFunctionData client) args).
  rewrite !enrichArgs_fulfilled.
  split_and!; [done|done|apply length_map|].
  intros i arg Hi. exists (enriched autoload decodeFunctionData client arg). split.
  - by rewrite list_lookup_fmap, Hi.
  - apply enriched_annotation.
Qed.

(** C5, as stated, fails: the arguments of an already decoded nested call,
    and a call held in a field of an object, are returned without a
    [decodedCall] although their decode would succeed. *)
Lemma nested_call_arguments_are_not_walked :
  let args := [Demo.call "0xaa" "0xc0406226";
               VObject [("inner", Demo.call "0xaa" "0xa9059cbb")]] in
  ∃ res,
    enrichArgs unit Demo.autoload Demo.decodeFunctionData (λ _ _, 0%nat) tt args
      = Fulfilled res
    ∧ some_node (missed_call Demo.autoload Demo.decodeFunctionData tt) <$> res
      = [true; true]
    ∧ res !! 1%nat = args !! 1%nat.
Proof. eexists. split; [vm_compute; reflexivity|]. split; reflexivity. Qed.

(** The amended C5 on a call nested two arrays deep. *)
Lemma array_reachable_calls_are_decoded_witness :
  ∃ res,
    enrichArgs unit Demo.autoload Demo.decodeFunctionData (λ _ i, i) tt
      [VBigInt 1; VArray [VArray [VString "x"; Demo.call "0xaa" "0xa9059cbb"]]]
      = Fulfilled res
    ∧ node_at res [1; 0; 1]%nat
      = Some (Demo.annotated "0xaa" "0xa9059cbb" Demo.transfer_call).
Proof.
  apply (array_reachable_calls_are_decoded unit Demo.autoload Demo.decodeFunctionData tt
           (λ _ i, i)
           [VBigInt 1; VArray [VArray [VString "x"; Demo.call "0xaa" "0xa9059cbb"]]]
           [1; 0; 1]%nat
           [("target", VString "0xaa"); ("value", VBigInt 0); ("data", VString "0xa9059cbb")]
           (VString "0xaa") "0xa9059cbb" Demo.erc20
           (Build_DecodedFunctionData "transfer" (Some [VString "0xcc"; VBigInt 5])));
    reflexivity.
Defined.

(** C7 on a batch held in an array argument of the top-level call: the
    first call is decoded, the three failing ones (resolver throws,
    decoder throws, no interface) and the number are returned as they
    were, and the query resolves to the decoded [executeBatch]. *)
Lemma nested_failure_degrades_gracefully_witness :
  let res :=
    [VArray [Demo.annotated "0xaa" "0xa9059cbb" Demo.transfer_call;
             Demo.call "0xbb" "0xa9059cbb"; Demo.call "0xaa" "0xffffffff";
             Demo.call "0xee" "0xa9059cbb"; VBigInt 9];
     VString "memo"] in
  enrichArgs unit Demo.autoload Demo.decodeBatch (λ _ i, (7 - i)%nat) tt
    [VArray Demo.batch_calls; VString "memo"] = Fulfilled res
  ∧ node_at res [0; 1]%nat = Some (Demo.call "0xbb" "0xa9059cbb")
  ∧ node_at res [0; 2]%nat = Some (Demo.call "0xaa" "0xffffffff")
  ∧ node_at res [0; 3]%nat = Some (Demo.call "0xee" "0xa9059cbb")
  ∧ node_at res [0; 0]%nat = Some (Demo.annotated "0xaa" "0xa9059cbb" Demo.transfer_call)
  ∧ queryFn Demo.autoload Demo.decodeBatch (λ _ i, (7 - i)%nat) (Some tt)
      (Some (Build_UserOpV06 (VString "0xaa") 0 "0x" "0x18dfb3c7" 0 0 0 0 0 "0x" "0x")) 1
    = Fulfilled (Some (Build_DecodedCallWithTypes "executeBatch" (Some res) None)).
Proof.
  intros res.
  destruct (nested_failure_degrades_gracefully Demo.autoload Demo.decodeBatch tt
              (λ _ i, (7 - i)%nat) [VArray Demo.batch_calls; VString "memo"])
    as (res' & Hres & _ & Hfail & Hok & _ & _ & Hq).
  assert (res' = res) as Heq.
  { assert (Fulfilled res' = Fulfilled res) as H by (rewrite <- Hres; reflexivity).
    by injection H. }
  rewrite Heq in *. split_and!.
  - exact Hres.
  - apply (Hfail [0; 1]%nat
             [("target", VString "0xbb"); ("value", VBigInt 0); ("data", VString "0xa9059cbb")]
             (VString "0xbb") "0xa9059cbb" eq_refl eq_refl).
    left. by eexists.
  - apply (Hfail [0; 2]%nat
             [("target", VString "0xaa"); ("value", VBigInt 0); ("data", VString "0xffffffff")]
             (VString "0xaa") "0xffffffff" eq_refl eq_refl).
    right. right. by exists Demo.erc20, (Error "no matching selector").
  - apply (Hfail [0; 3]%nat
             [("target", VString "0xee"); ("value", VBigInt 0); ("data", VString "0xa9059cbb")]
             (VString "0xee") "0xa9059cbb" eq_refl eq_refl).
    right. by left.
  - apply (Hok [0; 0]%nat
             [("target", VString "0xaa"); ("value", VBigInt 0); ("data", VString "0xa9059cbb")]
             (VString "0xaa") "0xa9059cbb" Demo.erc20
             (Build_DecodedFunctionData "transfer" (Some [VString "0xcc"; VBigInt 5]))
             eq_refl eq_refl eq_refl eq_refl).
  - apply (Hq (Build_UserOpV06 (VString "0xaa") 0 "0x" "0x18dfb3c7" 0 0 0 0 0 "0x" "0x")
             1 Demo.erc20 "executeBatch" eq_refl eq_refl); [discriminate|done|done].
Defined.

(* ================================================================== *)
(** * C9: type-descriptor rendering *)
(* ================================================================== *)

(** Induction on descriptors through their component lists. *)
Lemma AbiParameter_nested_ind (P : AbiParameter → Prop) :
  (∀ ty n, P (Build_AbiParameter ty n None)) →
  (∀ ty n cs, Forall P cs → P (Build_AbiParameter ty n (Some cs))) →
  ∀ p, P p.
Proof.
  intros Hleaf Htuple. fix IH 1. intros [ty n [cs|]]; [|apply Hleaf].
  apply Htuple. induction cs as [|c cs IHcs]; constructor; [apply IH|apply IHcs].
Qed.

Section RenderingFacts.

Lemma trimStart_clean s : startsClean s = true → trimStart s = s.
Proof.
  destruct s as [|c s]; simpl; [done|]. intros H%negb_true_iff. by rewrite H.
Qed.

Lemma trimEnd_clean s : endsClean s = true → trimEnd s = s.
Proof.
  induction s as [|c s IH]; [done|]. destruct s as [|d s].
  - simpl. intros H%negb_true_iff. by rewrite H.
  - intros H. change (endsClean (String d s) = true) in H.
    change (trimEnd (String c (String d s)))
      with (match trimEnd (String d s) with
            | EmptyString => if isWhiteSpace c then EmptyString else String c EmptyString
            | r => String c r
            end).
    by rewrite (IH H).
Qed.

Lemma noWhiteSpace_clean s :
  noWhiteSpace s = true → startsClean s = true ∧ endsClean s = true.
Proof.
  induction s as [|c s IH]; [done|]. simpl.
  intros [Hc Hs]%andb_true_iff. split; [done|].
  destruct s; [done|]. by apply IH.
Qed.

Lemma startsClean_app a b :
  a ≠ "" → startsClean a = true → startsClean (a +:+ b) = true.
Proof. by destruct a. Qed.

Lemma endsClean_app a b :
  b ≠ "" → endsClean b = true → endsClean (a +:+ b) = true.
Proof.
  intros Hb Hc. induction a as [|c a IH]; [done|].
  change (String c a +:+ b) with (String c (a +:+ b)).
  destruct (a +:+ b) eqn:E; [|done].
  destruct a; [|done]. simpl in E. by subst.
Qed.

Lemma append_assoc a b c : (a +:+ b) +:+ c = a +:+ b +:+ c.
Proof.
  induction a as [|x a IH]; [done|].
  change ((String x a +:+ b) +:+ c) with (String x ((a +:+ b) +:+ c)).
  by rewrite IH.
Qed.

(** The rendering of a component whose rendered type is clean and whose
    name holds no white space is what the specification describes. *)
Lemma component_rendering t n :
  t ≠ "" → startsClean t = true → endsClean t = true → noWhiteSpace n = true →
  trim (t +:+ " " +:+ n) = if truthy_string n then t +:+ " " +:+ n else t.
Proof.
  intros Ht Hs He Hn. unfold trim.
  rewrite trimStart_clean by (by apply startsClean_app).
  destruct n as [|c n].
  - simpl truthy_string. rewrite trimEnd_app_allWhiteSpace by done.
    by apply trimEnd_clean.
  - simpl truthy_string. apply trimEnd_clean.
    apply endsClean_app; [done|].
    apply (endsClean_app " " (String c n)); [done|].
    by apply noWhiteSpace_clean.
Qed.

(** On well-formed descriptors the code renders what the specification
    describes, and the rendering is non-empty and clean at both ends. *)
Lemma formatAbiType_wellFormed p :
  wellFormed p = true →
  formatAbiType p = Spec.formatAbiType p
  ∧ formatAbiType p ≠ "" ∧ startsClean (formatAbiType p) = true
  ∧ endsClean (formatAbiType p) = true.
Proof.
  induction p as [ty n|ty n cs IH] using AbiParameter_nested_ind.
  - simpl. rewrite !andb_true_iff. intros [[[Hty Hws] _] _].
    destruct (noWhiteSpace_clean _ Hws). split_and!; try done. by destruct ty.
  - simpl wellFormed. rewrite !andb_true_iff. intros [[[Hty Hws] _] [Hcs Harr]].
    assert (ty ≠ "") as Hne by (by destruct ty).
    destruct (noWhiteSpace_clean _ Hws) as [Hsc Hec].
    assert (map (λ c, trim (formatAbiType c +:+ " " +:+ name_or_empty (name c))) cs
            = map (λ c, match name c with
                        | Some m => if truthy_string m
                                    then Spec.formatAbiType c +:+ " " +:+ m
                                    else Spec.formatAbiType c
                        | None => Spec.formatAbiType c
                        end) cs) as Hmap.
    { clear Harr. induction IH as [|c l Hc _ IHl]; [done|].
      simpl in Hcs. apply andb_true_iff in Hcs as [Hwc Hwl].
      simpl. rewrite (IHl Hwl). f_equal.
      destruct (Hc Hwc) as (Heq & Hnn & Hs & He).
      assert (noWhiteSpace (name_or_empty (name c)) = true) as Hname.
      { destruct c as [cty cn ccs]. simpl in Hwc. rewrite !andb_true_iff in Hwc.
        by destruct Hwc as [[[_ _] ?] _]. }
      rewrite component_rendering by done. rewrite <- Heq.
      by destruct (name c) as [m|]. }
    simpl formatAbiType. simpl Spec.formatAbiType. rewrite Hmap.
    assert (∀ r closing, closing ≠ "" → endsClean closing = true →
              endsClean ("(" +:+ r +:+ closing) = true) as Hclose.
    { intros r closing H1 H2. apply (endsClean_app "(").
      - intros H. by destruct r, closing.
      - by apply endsClean_app. }
    destruct (String.eqb_spec ty "tuple") as [->|Hnt].
    { split_and!; [done|done|done|by apply Hclose]. }
    destruct (String.eqb_spec ty "tuple[]") as [->|Hna].
    { split_and!; [done|done|done|by apply Hclose]. }
    simpl in Harr. rewrite orb_false_r in Harr. apply negb_true_iff in Harr.
    rewrite Harr. by split_and!.
Qed.

(** What [trim] returns has no white space at either end. *)
Lemma trimEnd_endsClean s : endsClean (trimEnd s) = true.
Proof.
  induction s as [|c s IH]; [done|].
  change (trimEnd (String c s))
    with (match trimEnd s with
          | EmptyString => if isWhiteSpace c then EmptyString else String c EmptyString
          | r => String c r
          end).
  destruct (trimEnd s) as [|d r] eqn:E.
  - by destruct (isWhiteSpace c) eqn:Hc; simpl; rewrite ?Hc.
  - done.
Qed.

Lemma trim_clean s : startsClean (trim s) = true ∧ endsClean (trim s) = true.
Proof.
  split; [|apply trimEnd_endsClean].
  destruct (trim s) as [|c r] eqn:E; [done|].
  simpl. by rewrite (trim_head _ _ _ E).
Qed.

(** A name made of white space only, and white space at the end of a
    name, leave no trace in a rendered component. *)
Lemma component_blank_name t n :
  allWhiteSpace n = true → trim (t +:+ " " +:+ n) = trim t.
Proof.
  intros Hn. unfold trim. by apply (trimStart_app_allWhiteSpace t (" " +:+ n)).
Qed.

Lemma component_name_trailing t m w :
  allWhiteSpace w = true → trim (t +:+ " " +:+ m +:+ w) = trim (t +:+ " " +:+ m).
Proof.
  intros Hw.
  replace (t +:+ " " +:+ m +:+ w) with ((t +:+ " " +:+ m) +:+ w)
    by (by rewrite !append_assoc).
  unfold trim. by apply trimStart_app_allWhiteSpace.
Qed.

End RenderingFacts.

(** C9, as stated, fails: a fixed-size array of tuples is rendered as its
    bare type string, not as the tuple rendering with a suffix, and a
    component name that ends in white space is rendered without it. *)
Lemma tuple_rendering_differs_from_description :
  let ab := [Build_AbiParameter "uint256" (Some "a") None;
             Build_AbiParameter "address" (Some "b") None] in
  formatAbiType (Build_AbiParameter "tuple[2]" (Some "pairs") (Some ab)) = "tuple[2]"
  ∧ Spec.formatAbiType (Build_AbiParameter "tuple[2]" (Some "pairs") (Some ab))
    = "(uint256 a, address b)[]"
  ∧ formatAbiType (Build_AbiParameter "tuple" None
                     (Some [Build_AbiParameter "uint256" (Some "a ") None]))
    = "(uint256 a)"
  ∧ Spec.formatAbiType (Build_AbiParameter "tuple" None
                          (Some [Build_AbiParameter "uint256" (Some "a ") None]))
    = "(uint256 a )"
  ∧ ¬ (∀ p, formatAbiType p = Spec.formatAbiType p).
Proof.
  split_and!; try reflexivity.
  intros H.
  by specialize (H (Build_AbiParameter "tuple[2]" (Some "pairs")
                      (Some [Build_AbiParameter "uint256" (Some "a") None;
                             Build_AbiParameter "address" (Some "b") None]))).
Qed.

(** C9 (amended): a descriptor with components whose type is exactly
    "tuple" renders as the parenthesised, comma-joined list of its
    components, and one whose type is exactly "tuple[]" as that list
    followed by "[]"; each component is "<rendered component type>
    <component name>" with surrounding white space trimmed, so that an
    absent or empty name leaves the rendered type alone; every other
    descriptor, fixed-size and nested tuple arrays included, renders as its
    type string.  On descriptors of the ABI grammar (non-empty type names
    and names without white space, tuple arrays with components being
    [tuple[]]) this is, at every nesting depth, the rendering the
    specification describes.  The trimming is stated for every
    descriptor: a rendered component neither starts nor ends with white
    space, a name that is absent, empty or blank leaves the trimmed
    rendered type, and white space at the end of a name is dropped. *)
Theorem formatAbiType_renders_nested_tuples (p : AbiParameter) :
  (wellFormed p = true → formatAbiType p = Spec.formatAbiType p)
  ∧ (∀ ty n, formatAbiType (Build_AbiParameter ty n None) = ty)
  ∧ (∀ ty n cs, ty ≠ "tuple" → ty ≠ "tuple[]" →
       formatAbiType (Build_AbiParameter ty n (Some cs)) = ty)
  ∧ (∀ n cs,
       formatAbiType (Build_AbiParameter "tuple[]" n (Some cs))
       = formatAbiType (Build_AbiParameter "tuple" n (Some cs)) +:+ "[]")
  ∧ (let ab := [Build_AbiParameter "uint256" (Some "a") None;
                Build_AbiParameter "address" (Some "b") None] in
     formatAbiType (Build_AbiParameter "tuple" None (Some ab)) = "(uint256 a, address b)"
     ∧ formatAbiType (Build_AbiParameter "tuple[]" None (Some ab))
       = "(uint256 a, address b)[]")
  ∧ (∀ n cs,
       formatAbiType (Build_AbiParameter "tuple" n (Some cs))
       = "(" +:+ join ", "
                   (map (λ c, trim (formatAbiType c +:+ " " +:+ name_or_empty (name c)))
                        cs)
             +:+ ")")
  ∧ (∀ c, let r := trim (formatAbiType c +:+ " " +:+ name_or_empty (name c)) in
       (∀ n, formatAbiType (Build_AbiParameter "tuple" n (Some [c])) = "(" +:+ r +:+ ")")
       ∧ startsClean r = true ∧ endsClean r = true
       ∧ (allWhiteSpace (name_or_empty (name c)) = true → r = trim (formatAbiType c))
       ∧ (∀ m w, name c = Some (m +:+ w) → allWhiteSpace w = true →
            r = trim (formatAbiType c +:+ " " +:+ m)))
  ∧ formatAbiType (Build_AbiParameter "tuple" None
                     (Some [Build_AbiParameter "uint256" (Some "a ") None;
                            Build_AbiParameter "address" None None;
                            Build_AbiParameter "bytes" (Some "") None;
                            Build_AbiParameter " bool" (Some "ok") None]))
    = "(uint256 a, address, bytes, bool ok)".
Proof.
  split_and!.
  - intros H. by destruct (formatAbiType_wellFormed p H).
  - done.
  - intros ty n cs H1 H2. simpl.
    destruct (String.eqb_spec ty "tuple"); [done|].
    by destruct (String.eqb_spec ty "tuple[]").
  - intros n cs. simpl. by rewrite !append_assoc.
  - done.
  - done.
  - intros c r. split_and!.
    + done.
    + apply trim_clean.
    + apply trim_clean.
    + apply component_blank_name.
    + intros m w Hname Hw. unfold r. rewrite Hname. simpl name_or_empty.
      by apply component_name_trailing.
  - reflexivity.
Qed.

(** The amended C9 on a tuple array nested in a tuple, with an unnamed
    component, and on a component whose name ends in a blank. *)
Lemma formatAbiType_renders_nested_tuples_witness :
  formatAbiType
    (Build_AbiParameter "tuple" (Some "op")
       (Some [Build_AbiParameter "address" None None;
              Build_AbiParameter "tuple[]" (Some "calls")
                (Some [Build_AbiParameter "address" (Some "to") None;
                       Build_AbiParameter "bytes" (Some "data") None])]))
  = Spec.formatAbiType
      (Build_AbiParameter "tuple" (Some "op")
         (Some [Build_AbiParameter "address" None None;
                Build_AbiParameter "tuple[]" (Some "calls")
                  (Some [Build_AbiParameter "address" (Some "to") None;
                         Build_AbiParameter "bytes" (Some "data") None])]))
  ∧ formatAbiType
      (Build_AbiParameter "tuple" None
         (Some [Build_AbiParameter "uint256" (Some "a ") None]))
    = "(uint256 a)".
Proof.
  split.
  - apply (proj1 (formatAbiType_renders_nested_tuples _)). reflexivity.
  - destruct (formatAbiType_renders_nested_tuples
                (Build_AbiParameter "uint256" (Some "a ") None))
      as (_ & _ & _ & _ & _ & _ & Hc & _).
    destruct (Hc (Build_AbiParameter "uint256" (Some "a ") None))
      as (H1 & _ & _ & _ & H5).
    rewrite (H1 None). rewrite (H5 "a" " " eq_refl eq_refl). reflexivity.
Defined.

(** C8 on an interface that declares [transfer] twice, after an event of
    that name: the top-level call and a call nested in an array both
    carry the inputs of the first function declaration. *)
Lemma parameter_types_by_first_name_match_witness :
  (∃ r,
     queryFn Demo.autoload Demo.decodeFunctionData (λ _ i, i) (Some tt)
       (Some (Build_UserOpV06 (VString "0xaa") 0 "0x" "0xa9059cbb" 0 0 0 0 0 "0x" "0x")) 1
       = Fulfilled (Some r)
     ∧ functionName r = "transfer"
     ∧ inputs r = Some [Build_AbiParameter "address" (Some "to") None;
                        Build_AbiParameter "uint256" (Some "amount") None])
  ∧ (∃ res,
       enrichArgs unit Demo.autoload Demo.decodeFunctionData (λ _ i, i) tt
         [VArray [Demo.call "0xaa" "0xa9059cbb"]] = Fulfilled res
       ∧ node_at res [0; 0]%nat
         = Some (Demo.annotated "0xaa" "0xa9059cbb" Demo.transfer_call)).
Proof.
  destruct (parameter_types_by_first_name_match Demo.autoload Demo.decodeFunctionData tt)
    as (_ & _ & Htop & Hnested & _).
  split.
  - destruct (Htop (λ _ i, i)
                (Build_UserOpV06 (VString "0xaa") 0 "0x" "0xa9059cbb" 0 0 0 0 0 "0x" "0x")
                1 Demo.erc20
                (Build_DecodedFunctionData "transfer" (Some [VString "0xcc"; VBigInt 5]))
                eq_refl eq_refl ltac:(discriminate) eq_refl eq_refl)
      as (r & Hq & Hf & Hi & _).
    exists r. split; [exact Hq|]. split; [exact Hf|exact Hi].
  - destruct (Hnested (λ _ i, i) [VArray [Demo.call "0xaa" "0xa9059cbb"]] [0; 0]%nat
                [("target", VString "0xaa"); ("value", VBigInt 0);
                 ("data", VString "0xa9059cbb")]
                (VString "0xaa") "0xa9059cbb" Demo.erc20
                (Build_DecodedFunctionData "transfer" (Some [VString "0xcc"; VBigInt 5]))
                eq_refl eq_refl eq_refl eq_refl)
      as (res & i & Hres & Hnode & Hi & _).
    exists res. split; [exact Hres|]. rewrite Hnode, Hi. reflexivity.
Defined.

(* ================================================================== *)
(** * Further properties of the normaliser *)
(* ================================================================== *)

Section DecimalRoundTrip.

Lemma decimalDigit_pretty_N_char k :
  (k < 10)%N → Spec.decimalDigit (pretty_N_char k) = Some (Z.of_N k).
Proof.
  intros Hk.
  assert (k = 0 ∨ k = 1 ∨ k = 2 ∨ k = 3 ∨ k = 4 ∨ k = 5 ∨ k = 6 ∨ k = 7 ∨ k = 8 ∨ k = 9)%N
    as Hcases by lia.
  repeat destruct Hcases as [->|Hcases]; try reflexivity. by subst.
Qed.

(** Reading the digits [pretty_N_go] puts in front of [s]. *)
Lemma decimalFrom_pretty_N_go x s :
  (0 < x)%N →
  Spec.decimalFrom 0 (pretty_N_go x s) = Spec.decimalFrom (Z.of_N x) s.
Proof.
  revert s. induction (N.lt_wf_0 x) as [x _ IH]. intros s Hx.
  rewrite pretty_N_go_step by done.
  assert (x `mod` 10 < 10)%N as Hm by (apply N.mod_lt; lia).
  assert (Z.of_N x = 10 * Z.of_N (x `div` 10) + Z.of_N (x `mod` 10)) as Hx10.
  { rewrite (N.div_mod x 10) at 1 by lia. by rewrite N2Z.inj_add, N2Z.inj_mul. }
  destruct (decide (x `div` 10 = 0)%N) as [Hz|Hnz].
  - rewrite Hz, pretty_N_go_0. simpl. rewrite decimalDigit_pretty_N_char by done.
    rewrite Hx10, Hz. done.
  - rewrite IH; [|apply N.div_lt; lia|lia].
    simpl. rewrite decimalDigit_pretty_N_char by done. by rewrite Hx10.
Qed.

Lemma decimalFrom_pretty_positive p :
  Spec.decimalFrom 0 (pretty p) = Some (Z.pos p).
Proof.
  unfold pretty, pretty_positive, pretty, pretty_N.
  destruct (decide (N.pos p = 0)%N); [done|].
  by rewrite decimalFrom_pretty_N_go.
Qed.

Lemma decimalFrom_head_not_sign acc c s v :
  Spec.decimalFrom acc (String c s) = Some v →
  Ascii.eqb c "-" = false ∧ Ascii.eqb c "+" = false.
Proof.
  intros H%decimalFrom_first_digit.
  split; match goal with |- Ascii.eqb c ?k = false =>
    destruct (Ascii.eqb_spec c k); [by subst|done] end.
Qed.

(** The decimal rendering of an integer is a decimal integer with that
    value. *)
Lemma decimalInteger_BigInt_toString z :
  Spec.decimalInteger (BigInt_toString z) = Some z.
Proof.
  unfold BigInt_toString. destruct z as [|p|p]; [reflexivity| |].
  - change (pretty (Z.pos p)) with (pretty p).
    pose proof (decimalFrom_pretty_positive p) as H.
    destruct (pretty p) as [|c s] eqn:E; [done|]. unfold Spec.decimalInteger.
    destruct (decimalFrom_head_not_sign _ _ _ _ H) as [-> ->]. done.
  - change (pretty (Z.neg p)) with (String "-" (pretty p)).
    pose proof (decimalFrom_pretty_positive p) as H.
    unfold Spec.decimalInteger. simpl Ascii.eqb. cbv iota.
    destruct (pretty p) as [|c s] eqn:E; [done|]. by rewrite H.
Qed.

Lemma decimalFrom_endsWith_n acc s v :
  Spec.decimalFrom acc s = Some v → endsWith_n s = false.
Proof.
  revert acc. induction s as [|c s IH]; intros acc; [done|].
  intros H. pose proof (decimalFrom_first_digit _ _ _ _ H) as Hc.
  simpl in H. destruct (Spec.decimalDigit c); [|done].
  destruct s as [|d s]; [simpl; clear IH H; code_cases|].
  change (endsWith_n (String c (String d s))) with (endsWith_n (String d s)). eauto.
Qed.

Lemma decimalInteger_endsWith_n s v :
  Spec.decimalInteger s = Some v → endsWith_n s = false.
Proof.
  destruct s as [|c ds]; [done|]. unfold Spec.decimalInteger.
  assert (∀ w, Spec.decimalFrom 0 ds = Some w → ds ≠ "" →
            endsWith_n (String c ds) = false) as Hsigned.
  { intros w Hw Hne. destruct ds as [|d ds]; [done|].
    change (endsWith_n (String c (String d ds))) with (endsWith_n (String d ds)).
    by eapply decimalFrom_endsWith_n. }
  destruct (Ascii.eqb c "-").
  { destruct ds as [|d ds]; [done|].
    destruct (Spec.decimalFrom 0 (String d ds)) as [w|] eqn:E; [|done].
    intros _. by eapply Hsigned. }
  destruct (Ascii.eqb c "+").
  { destruct ds as [|d ds]; [done|]. intros E. by eapply Hsigned. }
  apply decimalFrom_endsWith_n.
Qed.

(** A decimal integer, as it stands, parses to its value. *)
Lemma parseValue_decimalInteger s v :
  Spec.decimalInteger s = Some v → parseValue s = Normal v.
Proof.
  intros H. rewrite parseValue_BigInt. unfold bigIntOperand.
  destruct (decimalInteger_StrIntegerLiteral _ _ H) as [_ Hws].
  rewrite (trim_noWhiteSpace _ Hws), (decimalInteger_endsWith_n _ _ H).
  rewrite andb_false_r. by apply decimalInteger_BigInt.
Qed.

Lemma endsWith_n_app s : endsWith_n (s +:+ "n") = true.
Proof.
  induction s as [|c s IH]; [done|].
  change (String c s +:+ "n") with (String c (s +:+ "n")).
  destruct (s +:+ "n") eqn:E; [by destruct s|]. done.
Qed.

Lemma slice_0_m1_app s : slice_0_m1 (s +:+ "n") = s.
Proof.
  induction s as [|c s IH]; [done|].
  change (String c s +:+ "n") with (String c (s +:+ "n")).
  destruct (s +:+ "n") eqn:E; [by destruct s|].
  change (slice_0_m1 (String c (String a s0))) with (String c (slice_0_m1 (String a s0))).
  by rewrite IH.
Qed.

Lemma allHexDigits_app_n s : allHexDigits (s +:+ "n") = false.
Proof.
  induction s as [|c s IH]; [done|].
  change (String c s +:+ "n") with (String c (s +:+ "n")).
  simpl. rewrite IH. apply andb_false_r.
Qed.

Lemma isHex_app_n s : isHex (s +:+ "n") = false.
Proof.
  destruct s as [|c0 [|c1 ds]].
  - done.
  - change (isHex (String c0 "n") = false). simpl. by destruct (Ascii.eqb c0 "0").
  - change (String c0 (String c1 ds) +:+ "n") with (String c0 (String c1 (ds +:+ "n"))).
    simpl. rewrite allHexDigits_app_n. apply andb_false_r.
Qed.

Lemma noWhiteSpace_app_n s : noWhiteSpace s = true → noWhiteSpace (s +:+ "n") = true.
Proof.
  induction s as [|c s IH]; [done|].
  change (String c s +:+ "n") with (String c (s +:+ "n")). simpl.
  intros [-> Hs]%andb_true_iff. simpl. auto.
Qed.

End DecimalRoundTrip.

(** X1: the decimal string shown for an integer field parses back to the
    same integer, for every integer (negative ones included), and so does
    that string followed by the BigInt suffix "n". *)
Theorem parseValue_reads_back_toString (z : Z) :
  parseValue (BigInt_toString z) = Normal z
  ∧ parseValue (BigInt_toString z +:+ "n") = Normal z.
Proof.
  pose proof (decimalInteger_BigInt_toString z) as H.
  split; [by apply parseValue_decimalInteger|].
  destruct (decimalInteger_StrIntegerLiteral _ _ H) as [_ Hws].
  rewrite parseValue_BigInt. unfold bigIntOperand.
  rewrite (trim_noWhiteSpace _ (noWhiteSpace_app_n _ Hws)).
  rewrite isHex_app_n, endsWith_n_app, slice_0_m1_app. simpl.
  by apply decimalInteger_BigInt.
Qed.

Section ByteStringFacts.

Lemma allHexDigits_noWhiteSpace s : allHexDigits s = true → noWhiteSpace s = true.
Proof.
  induction s as [|c s IH]; [done|]. simpl.
  intros [Hc Hs]%andb_true_iff. rewrite (IH Hs), andb_true_r.
  clear IH Hs. code_cases.
Qed.

(** A hex string holds no white space. *)
Lemma isHex_noWhiteSpace h : isHex h = true → noWhiteSpace h = true.
Proof.
  destruct h as [|c0 [|c1 ds]]; try done. simpl.
  intros [[H0 H1]%andb_true_iff Hds]%andb_true_iff.
  apply Ascii.eqb_eq in H0 as ->. apply Ascii.eqb_eq in H1 as ->.
  by apply allHexDigits_noWhiteSpace.
Qed.

Lemma parseHexValue_Normal_isHex value h :
  parseHexValue value = Normal h → isHex h = true.
Proof.
  unfold parseHexValue.
  destruct (negb (truthy_string (trim value)) || String.eqb (trim value) "0x").
  { by intros [= <-]. }
  destruct (isHex (trim value)) eqn:E; [|done]. by intros [= <-].
Qed.

(** A hex string is returned as it is. *)
Lemma parseHexValue_isHex h : isHex h = true → parseHexValue h = Normal h.
Proof.
  intros H. unfold parseHexValue.
  rewrite (trim_noWhiteSpace _ (isHex_noWhiteSpace _ H)), H.
  destruct h as [|c r]; [done|]. cbn [truthy_string negb orb].
  destruct (String.eqb_spec (String c r) "0x") as [Heq|]; [by rewrite Heq|done].
Qed.

Variable JSON_parse : string → option value.

(** Every byte-string result of either mode comes out of [parseHexValue]. *)
Lemma hex_results_source st :
  Forall (λ r, ∀ h, r = Normal h → ∃ text, parseHexValue text = Normal h)
    (hex_results JSON_parse st).
Proof.
  unfold hex_results. destruct (inputMode st).
  - destruct (JSON_parse (rawInput st)) as [parsed|].
    + apply Forall_fmap, Forall_forall. intros k _ h. simpl.
      destruct (Get parsed k) as [v|e]; simpl; [|done].
      destruct v; try done. eauto.
    + apply Forall_fmap, Forall_forall. by intros k _ h.
  - apply Forall_fmap, Forall_forall. intros text _ h. simpl. eauto.
Qed.

Lemma produced_hex_fields st op :
  parsedUserOp JSON_parse st = Some op →
  Forall (λ h, isHex h = true) (hex_fields op).
Proof.
  intros Hop.
  destruct (normalization_facts_for_record JSON_parse st op Hop) as [_ Hh].
  eapply Forall2_Forall_r; [exact Hh|].
  eapply Forall_impl; [apply hex_results_source|].
  intros r Hr h Hh'. destruct (Hr h Hh') as [text Htext].
  by eapply parseHexValue_Normal_isHex.
Qed.

End ByteStringFacts.

(** X2: in both modes, every byte-string field of a produced record
    ([initCode], [callData], [paymasterAndData], [signature]) is "0x"
    followed by hex digits, holds no white space, and is a fixed point of
    [parseHexValue]; in particular no such field is ever the empty
    string. *)
Theorem byte_string_fields_are_normal_forms
    (JSON_parse : string → option value) (st : FormState) (op : UserOpV06) :
  parsedUserOp JSON_parse st = Some op →
  Forall (λ h, isHex h = true ∧ noWhiteSpace h = true
               ∧ parseHexValue h = Normal h ∧ h ≠ "")
    (hex_fields op).
Proof.
  intros Hop. eapply Forall_impl; [by eapply produced_hex_fields|].
  intros h Hh. simpl.
  split_and!; [done|by apply isHex_noWhiteSpace|by apply parseHexValue_isHex|].
  by destruct h.
Qed.

(** X2 on a form whose byte-string inputs carry white space and the empty
    string. *)
Lemma byte_string_fields_are_normal_forms_witness :
  ∃ op,
    parsedUserOp (λ _, None)
      (Build_FormState fields "" "0xabc" "1" " 0xAb " "" "" "" "" "" "" "0x" "0x12") = Some op
    ∧ hex_fields op = ["0xAb"; "0x"; "0x"; "0x12"]
    ∧ Forall (λ h, isHex h = true ∧ noWhiteSpace h = true
                   ∧ parseHexValue h = Normal h ∧ h ≠ "")
        (hex_fields op).
Proof.
  eexists. split; [reflexivity|]. split; [reflexivity|].
  apply (byte_string_fields_are_normal_forms (λ _, None)
           (Build_FormState fields "" "0xabc" "1" " 0xAb " "" "" "" "" "" "" "0x" "0x12")).
  reflexivity.
Defined.

Section RawMode.

Variable JSON_parse : string → option value.

(** A text that does not parse to an object yields no record. *)
Lemma parseUserOpFromRaw_not_object raw_text :
  (∀ props, JSON_parse raw_text ≠ Some (VObject props)) →
  parseUserOpFromRaw JSON_parse raw_text = None.
Proof.
  intros H. unfold parseUserOpFromRaw, parseUserOpFromRaw_body.
  destruct (JSON_parse raw_text) as [[ | | | | | | | props | ]|]; try done.
  by destruct (H props).
Qed.

Lemma parseValue_String_undefined : parseValue_String VUndefined = Throw SyntaxError.
Proof. reflexivity. Qed.

End RawMode.

(** X3: raw mode yields a record only for a text that parses to an object
    which has all six integer members and all four byte-string members,
    the latter as strings; the sender of the record is whatever the object
    holds under [sender], [undefined] when it holds nothing. *)
Theorem raw_mode_needs_every_member
    (JSON_parse : string → option value) (raw_text : string) (op : UserOpV06) :
  parseUserOpFromRaw JSON_parse raw_text = Some op →
  ∃ props,
    JSON_parse raw_text = Some (VObject props)
    ∧ Forall (λ k, has_own props k = true) (int_keys ++ hex_keys)
    ∧ Forall (λ k, ∃ s, own_prop props k = VString s) hex_keys
    ∧ sender op = own_prop props "sender".
Proof.
  intros Hop.
  destruct (JSON_parse raw_text) as [[ | | | | | | | props | ]|] eqn:Hjson;
    try (rewrite parseUserOpFromRaw_not_object in Hop; [done|by rewrite Hjson]).
  exists props. rewrite (parseUserOpFromRaw_object _ _ _ Hjson) in Hop.
  destruct (assemble_cases (own_prop props "sender")
              ((λ k, parseValue_String (own_prop props k)) <$> int_keys)
              ((λ k, parseHexValue_any (own_prop props k)) <$> hex_keys))
    as [(op' & Hop' & Hs & Hi & Hh)|[[e He] _]];
    [done|done| |by rewrite He in Hop].
  rewrite Hop' in Hop. injection Hop as ->.
  apply Forall2_fmap_l, Forall2_Forall_l with (Q := λ k, ∃ v,
    parseValue_String (own_prop props k) = Normal v) in Hi; cycle 1.
  { apply Forall_true. intros v k Hk. by exists v. }
  apply Forall2_fmap_l, Forall2_Forall_l with (Q := λ k, ∃ h,
    parseHexValue_any (own_prop props k) = Normal h) in Hh; cycle 1.
  { apply Forall_true. intros h k Hk. by exists h. }
  split_and!; [done| | |done].
  - apply Forall_app. split.
    + eapply Forall_impl; [exact Hi|]. intros k [v Hv]. simpl in Hv.
      destruct (has_own props k) eqn:Hk; [done|].
      by rewrite (own_prop_missing _ _ Hk), parseValue_String_undefined in Hv.
    + eapply Forall_impl; [exact Hh|]. intros k [h Hv]. simpl in Hv.
      destruct (has_own props k) eqn:Hk; [done|].
      by rewrite (own_prop_missing _ _ Hk) in Hv.
  - eapply Forall_impl; [exact Hh|]. intros k [h Hv]. simpl in Hv.
    destruct (own_prop props k); try done. by eexists.
Qed.

(** X3 on a parsed text without [sender]. *)
Lemma raw_mode_needs_every_member_witness :
  ∃ props,
    (λ _ : string, Some (VObject (tail (displayed
       (Build_UserOpV06 VNull 7 "0x" "0x12" 1 2 3 4 5 "0x" "0x"))))) "{...}"
      = Some (VObject props)
    ∧ Forall (λ k, has_own props k = true) (int_keys ++ hex_keys)
    ∧ Forall (λ k, ∃ s, own_prop props k = VString s) hex_keys
    ∧ sender (Build_UserOpV06 VUndefined 7 "0x" "0x12" 1 2 3 4 5 "0x" "0x")
      = own_prop props "sender".
Proof.
  apply (raw_mode_needs_every_member
           (λ _, Some (VObject (tail (displayed
              (Build_UserOpV06 VNull 7 "0x" "0x12" 1 2 3 4 5 "0x" "0x")))))
           "{...}").
  reflexivity.
Defined.

(** X4: the panel round trip.  When the text pasted in raw mode parses to
    the object the panel shows for a produced record (the record with its
    integers as decimal strings), raw mode yields that very record. *)
Theorem displayed_record_parses_back
    (JSON_parse : string → option value) (st : FormState) (op : UserOpV06)
    (raw_text : string) :
  parsedUserOp JSON_parse st = Some op →
  JSON_parse raw_text = Some (VObject (displayed op)) →
  parseUserOpFromRaw JSON_parse raw_text = Some op.
Proof.
  intros Hop Hjson. rewrite (parseUserOpFromRaw_object _ _ _ Hjson).
  pose proof (produced_hex_fields _ _ _ Hop) as Hhex.
  destruct op as [s n ic cd cgl vgl pvg mf mpf pd sig].
  unfold hex_fields in Hhex. simpl in Hhex.
  apply Forall_cons_1 in Hhex as [H1 Hhex]. apply Forall_cons_1 in Hhex as [H2 Hhex].
  apply Forall_cons_1 in Hhex as [H3 Hhex]. apply Forall_cons_1 in Hhex as [H4 _].
  assert (∀ z, parseValue_String (VString (BigInt_toString z)) = Normal z) as Hint.
  { intros z. unfold parseValue_String. simpl.
    apply parseValue_decimalInteger, decimalInteger_BigInt_toString. }
  cbn [displayed int_keys hex_keys fmap list_fmap own_prop String.eqb Ascii.eqb
       Bool.eqb sender nonce initCode callData callGasLimit verificationGasLimit
       preVerificationGas maxFeePerGas maxPriorityFeePerGas paymasterAndData
       signature parseHexValue_any assemble].
  rewrite !Hint, !parseHexValue_isHex by done. reflexivity.
Qed.

(** X4 on the record of a fields-mode form with a negative nonce. *)
Lemma displayed_record_parses_back_witness :
  let op := Build_UserOpV06 (VString "0xabc") (-5) "0x" "0xAb" 16 0 0 0 7 "0x" "0x12" in
  parseUserOpFromRaw (λ _, Some (VObject (displayed op))) "{...}" = Some op.
Proof.
  apply (displayed_record_parses_back (λ _, Some (VObject (displayed
           (Build_UserOpV06 (VString "0xabc") (-5) "0x" "0xAb" 16 0 0 0 7 "0x" "0x12"))))
           (Build_FormState fields "" "0xabc" "-5" "" " 0xAb" "0x10" "" "" "" "7n" "0x" "0x12"));
    reflexivity.
Defined.

(** X5: the two modes agree.  A raw text that parses to an object whose
    eleven members are strings yields what fields mode yields on a form
    holding those strings. *)
Theorem raw_and_fields_modes_agree
    (JSON_parse : string → option value) (st_raw st_fields : FormState)
    (props : list (string * value)) :
  inputMode st_raw = raw → inputMode st_fields = fields →
  JSON_parse (rawInput st_raw) = Some (VObject props) →
  Forall2 (λ k text, own_prop props k = VString text) form_keys (form_texts st_fields) →
  parsedUserOp JSON_parse st_raw = parsedUserOp JSON_parse st_fields.
Proof.
  intros Hraw Hfields Hjson Hkeys. unfold parsedUserOp. rewrite Hraw, Hfields.
  rewrite (parseUserOpFromRaw_object _ _ _ Hjson).
  unfold form_keys, form_texts in Hkeys.
  repeat match goal with
    | H : Forall2 _ (_ :: _) (_ :: _) |- _ =>
        apply Forall2_cons_1 in H as [? H]
    end.
  cbn [int_keys hex_keys fmap list_fmap].
  repeat match goal with H : own_prop props _ = _ |- _ => rewrite H; clear H end.
  reflexivity.
Qed.

(** X5 on a text that parses to the eleven strings of a form. *)
Lemma raw_and_fields_modes_agree_witness :
  let st := Build_FormState fields "" "0xabc" "1" "0x" " 0xAb" "0x10" "" "" "" "7n" "0x" "zz" in
  let obj := VObject (zip form_keys (VString <$> form_texts st)) in
  parsedUserOp (λ _, Some obj)
    (Build_FormState raw "{...}" "" "" "" "" "" "" "" "" "" "" "")
  = parsedUserOp (λ _, Some obj) st.
Proof.
  apply (raw_and_fields_modes_agree _
           (Build_FormState raw "{...}" "" "" "" "" "" "" "" "" "" "" "")
           (Build_FormState fields "" "0xabc" "1" "0x" " 0xAb" "0x10" "" "" "" "7n" "0x" "zz")
           (zip form_keys (VString <$> form_texts
              (Build_FormState fields "" "0xabc" "1" "0x" " 0xAb" "0x10" "" "" "" "7n"
                 "0x" "zz"))));
    [reflexivity|reflexivity|reflexivity|repeat constructor].
Defined.

Section HexCaseFacts.

(** Code units that differ only in the case of a hex letter are read
    alike by every test of the integer parser. *)
Lemma sameHexLetter_parser c d :
  sameHexLetter c d = true →
  digitValue c = digitValue d
  ∧ isHexDigit c = isHexDigit d
  ∧ radixOfPrefix c = radixOfPrefix d
  ∧ Ascii.eqb c "0" = Ascii.eqb d "0"
  ∧ Ascii.eqb c "x" = Ascii.eqb d "x"
  ∧ Ascii.eqb c "+" = Ascii.eqb d "+"
  ∧ Ascii.eqb c "-" = Ascii.eqb d "-"
  ∧ (code c =? 110)%N = (code d =? 110)%N.
Proof.
  assert (∀ a b, between 65 70 a = true → (code b =? code a + 32)%N = true →
            digitValue a = digitValue b
            ∧ isHexDigit a = isHexDigit b
            ∧ radixOfPrefix a = radixOfPrefix b
            ∧ Ascii.eqb a "0" = Ascii.eqb b "0"
            ∧ Ascii.eqb a "x" = Ascii.eqb b "x"
            ∧ Ascii.eqb a "+" = Ascii.eqb b "+"
            ∧ Ascii.eqb a "-" = Ascii.eqb b "-"
            ∧ (code a =? 110)%N = (code b =? 110)%N) as Hcase.
  { intros a b Ha Hb. apply N.eqb_eq in Hb.
    assert (b = ascii_of_N (code a + 32)) as ->.
    { rewrite <- Hb. symmetry. apply ascii_N_embedding. }
    destruct a as [[] [] [] [] [] [] [] []]; vm_compute in Ha; try discriminate;
      by vm_compute. }
  unfold sameHexLetter. intros H.
  apply orb_true_iff in H as [H|H]; [apply orb_true_iff in H as [H|H]|].
  - by apply Ascii.eqb_eq in H as ->.
  - apply andb_true_iff in H as [Ha Hb]. by apply Hcase.
  - apply andb_true_iff in H as [Ha Hb].
    destruct (Hcase _ _ Ha Hb) as (-> & -> & -> & -> & -> & -> & -> & ->). done.
Qed.

Lemma hexCaseVariant_digitsFrom radix acc s t :
  hexCaseVariant s t = true → digitsFrom radix acc s = digitsFrom radix acc t.
Proof.
  revert acc t. induction s as [|c s IH]; intros acc [|d t]; simpl; try done.
  intros [Hc Hs]%andb_true_iff.
  destruct (sameHexLetter_parser _ _ Hc) as (-> & _).
  destruct (digitValue d) as [v|]; [|done]. destruct (v <? radix); [|done]. by apply IH.
Qed.

Lemma hexCaseVariant_digits radix s t :
  hexCaseVariant s t = true → digits radix s = digits radix t.
Proof.
  intros H. unfold digits. rewrite (hexCaseVariant_digitsFrom radix 0 _ _ H).
  by destruct s, t.
Qed.

Lemma hexCaseVariant_allHexDigits s t :
  hexCaseVariant s t = true → allHexDigits s = allHexDigits t.
Proof.
  revert t. induction s as [|c s IH]; intros [|d t]; simpl; try done.
  intros [Hc Hs]%andb_true_iff.
  destruct (sameHexLetter_parser _ _ Hc) as (_ & -> & _). by rewrite (IH _ Hs).
Qed.

Lemma hexCaseVariant_isHex s t :
  hexCaseVariant s t = true → isHex s = isHex t.
Proof.
  destruct s as [|c0 [|c1 s]], t as [|d0 [|d1 t]]; simpl; try done;
    rewrite ?andb_false_r; try done.
  intros [H0 [H1 Hs]%andb_true_iff]%andb_true_iff.
  destruct (sameHexLetter_parser _ _ H0) as (_ & _ & _ & -> & _).
  destruct (sameHexLetter_parser _ _ H1) as (_ & _ & _ & _ & -> & _).
  by rewrite (hexCaseVariant_allHexDigits _ _ Hs).
Qed.

Lemma hexCaseVariant_endsWith_n s t :
  hexCaseVariant s t = true → endsWith_n s = endsWith_n t.
Proof.
  revert t. induction s as [|c s IH]; intros [|d t]; simpl; try done.
  intros [Hc Hs]%andb_true_iff.
  destruct (sameHexLetter_parser _ _ Hc) as (_ & _ & _ & _ & _ & _ & _ & Hn).
  destruct s as [|c' s], t as [|d' t]; try done. by apply IH.
Qed.

Lemma hexCaseVariant_slice s t :
  hexCaseVariant s t = true → hexCaseVariant (slice_0_m1 s) (slice_0_m1 t) = true.
Proof.
  revert t. induction s as [|c s IH]; intros [|d t]; simpl; try done.
  intros [Hc Hs]%andb_true_iff.
  destruct s as [|c' s], t as [|d' t]; try done.
  specialize (IH _ Hs). simpl in *. by rewrite Hc, IH.
Qed.

Lemma hexCaseVariant_StrIntegerLiteral s t :
  hexCaseVariant s t = true → StrIntegerLiteral s = StrIntegerLiteral t.
Proof.
  intros H. unfold StrIntegerLiteral.
  assert (nonDecimalPrefix s = None ∧ nonDecimalPrefix t = None
          ∨ ∃ radix ds dt, nonDecimalPrefix s = Some (radix, ds)
              ∧ nonDecimalPrefix t = Some (radix, dt)
              ∧ hexCaseVariant ds dt = true) as [[-> ->]|(radix & ds & dt & -> & -> & Hd)].
  { destruct s as [|c0 [|c1 s]], t as [|d0 [|d1 t]]; simpl in *; try done;
      rewrite ?andb_false_r in H; try done; auto.
    apply andb_true_iff in H as [H0 [H1 Hs]%andb_true_iff].
    destruct (sameHexLetter_parser _ _ H0) as (_ & _ & _ & -> & _).
    destruct (sameHexLetter_parser _ _ H1) as (_ & _ & -> & _).
    destruct (Ascii.eqb d0 "0"); [|by left].
    destruct (radixOfPrefix d1) as [radix|]; [|by left].
    right. by exists radix, s, t. }
  - unfold SignedInteger. destruct s as [|c s], t as [|d t]; try done.
    pose proof H as [Hc Hs]%andb_true_iff.
    destruct (sameHexLetter_parser _ _ Hc) as (_ & _ & _ & _ & _ & -> & -> & _).
    rewrite (hexCaseVariant_digits 10 _ _ Hs), (hexCaseVariant_digits 10 _ _ H). done.
  - by apply hexCaseVariant_digits.
Qed.

Lemma hexCaseVariant_trim s t :
  hexCaseVariant s t = true → hexCaseVariant (trim s) (trim t) = true.
Proof. intros H. by apply hexCaseVariant_trimEnd, hexCaseVariant_trimStart. Qed.

Lemma hexCaseVariant_BigInt s t :
  hexCaseVariant s t = true → BigInt s = BigInt t.
Proof.
  intros H%hexCaseVariant_trim. unfold BigInt, StringToBigInt.
  destruct (trim s) as [|c r], (trim t) as [|d r']; try done.
  by rewrite (hexCaseVariant_StrIntegerLiteral _ _ H).
Qed.

Lemma hexCaseVariant_parseValue s t :
  hexCaseVariant s t = true → parseValue s = parseValue t.
Proof.
  intros H. pose proof (hexCaseVariant_trim _ _ H) as Ht. unfold parseValue.
  rewrite (hexCaseVariant_truthy _ _ Ht), (hexCaseVariant_isHex _ _ Ht),
    (hexCaseVariant_endsWith_n _ _ Ht), (hexCaseVariant_BigInt _ _ Ht),
    (hexCaseVariant_BigInt _ _ (hexCaseVariant_slice _ _ Ht)).
  done.
Qed.

End HexCaseFacts.

(** X6: integer parsing does not depend on white space around the text
    nor on the case of the letters a-f (so "0xAB" and " 0xab " give the
    same value), and the outcome of byte-string parsing, apart from the
    text of its error, does not depend on surrounding white space. *)
Theorem parsers_ignore_space_and_hex_case (s t w1 w2 : string) :
  hexCaseVariant s t = true → allWhiteSpace w1 = true → allWhiteSpace w2 = true →
  parseValue (w1 +:+ t +:+ w2) = parseValue s
  ∧ try_or_null (parseHexValue (w1 +:+ s +:+ w2)) = try_or_null (parseHexValue s).
Proof.
  intros H H1 H2. split.
  - rewrite (hexCaseVariant_parseValue _ _ H). unfold parseValue.
    by rewrite trim_surrounding.
  - unfold parseHexValue. rewrite trim_surrounding by done.
    destruct (negb (truthy_string (trim s)) || String.eqb (trim s) "0x"); [done|].
    by destruct (isHex (trim s)).
Qed.

(** X6 on a hex literal and a binary literal written in the other case. *)
Lemma parsers_ignore_space_and_hex_case_witness :
  parseValue "  0xAB12cd " = parseValue "0xab12CD"
  ∧ parseValue "0xab12CD" = Normal 11211469
  ∧ parseValue " 0B11 " = parseValue "0b11".
Proof.
  split; [|split; [reflexivity|]].
  - exact (proj1 (parsers_ignore_space_and_hex_case "0xab12CD" "0xAB12cd" "  " " "
                    eq_refl eq_refl eq_refl)).
  - exact (proj1 (parsers_ignore_space_and_hex_case "0b11" "0B11" " " " "
                    eq_refl eq_refl eq_refl)).
Defined.

(** X7: a hex string always parses as an integer, to a value from 0 up to
    16 to the number of its digits, except the bare prefix "0x", which
    throws although the byte-string parser accepts it as the empty
    marker. *)
Theorem parseValue_hex_literal (value : string) :
  isHex (trim value) = true →
  (trim value = "0x" →
     parseValue value = Throw SyntaxError ∧ parseHexValue value = Normal "0x")
  ∧ (trim value ≠ "0x" →
     ∃ v, parseValue value = Normal v
          ∧ 0 ≤ v < 16 ^ (Z.of_nat (String.length (trim value)) - 2)).
Proof.
  unfold parseValue, parseHexValue. pose proof (trim_idem value) as Hidem.
  destruct (trim value) as [|c0 [|c1 ds]] eqn:E; try done.
  intros Hhex. rewrite Hhex. cbn [truthy_string negb orb].
  unfold BigInt. rewrite (StringToBigInt_trimmed _ _ Hidem).
  simpl in Hhex.
  destruct (Ascii.eqb_spec c0 "0") as [->|]; [|done].
  destruct (Ascii.eqb_spec c1 "x") as [->|]; [|done].
  unfold StrIntegerLiteral. simpl nonDecimalPrefix. cbv iota beta.
  split.
  - by intros [= ->].
  - intros Hne. destruct ds as [|d ds]; [done|]. unfold digits.
    destruct (allHexDigits_digitsFrom 0 _ Hhex) as [v Hv]. rewrite Hv.
    exists v. split; [done|].
    apply digitsFrom_bounds in Hv; [|lia|lia].
    replace (Z.of_nat (String.length (String "0" (String "x" (String d ds)))) - 2)
      with (Z.of_nat (String.length (String d ds))) by (simpl String.length; lia).
    lia.
Qed.

(** X7 on a four-digit literal. *)
Lemma parseValue_hex_literal_witness :
  ∃ v, parseValue " 0xffff " = Normal v ∧ 0 ≤ v < 16 ^ (Z.of_nat 6 - 2).
Proof.
  apply (proj2 (parseValue_hex_literal " 0xffff " eq_refl)). discriminate.
Defined.

(* ================================================================== *)
(** * Further properties of the decoder and enricher *)
(* ================================================================== *)

Section ObjectFacts.

Lemma own_prop_set_prop_ne props k v k' :
  k ≠ k' → own_prop (set_prop props k v) k' = own_prop props k'.
Proof.
  intros Hne. induction props as [|[j w] props IH]; simpl.
  - by destruct (String.eqb_spec k k').
  - destruct (String.eqb_spec j k) as [->|]; simpl.
    + by destruct (String.eqb_spec k k').
    + by rewrite IH.
Qed.

Lemma own_prop_set_prop_eq props k v : own_prop (set_prop props k v) k = v.
Proof.
  induction props as [|[j w] props IH]; simpl.
  - by rewrite String.eqb_refl.
  - destruct (String.eqb_spec j k) as [->|Hne]; simpl.
    + by rewrite String.eqb_refl.
    + by destruct (String.eqb_spec j k).
Qed.

Lemma set_prop_set_prop props k v v' :
  set_prop (set_prop props k v) k v' = set_prop props k v'.
Proof.
  induction props as [|[j w] props IH]; simpl.
  - by rewrite String.eqb_refl.
  - destruct (String.eqb_spec j k) as [->|Hne]; simpl.
    + by rewrite String.eqb_refl.
    + destruct (String.eqb_spec j k); [done|]. by rewrite IH.
Qed.

Lemma keys_set_prop props k v :
  keys (set_prop props k v) = if has_own props k then keys props else keys props ++ [k].
Proof.
  unfold keys. induction props as [|[j w] props IH]; [done|].
  cbn [set_prop has_own]. destruct (String.eqb_spec j k) as [->|Hne].
  - by rewrite !fmap_cons.
  - rewrite !fmap_cons, IH. cbn [orb fst]. by destruct (has_own props k).
Qed.

Lemma call_candidate_set_decodedCall props v :
  call_candidate (set_prop props "decodedCall" v) = call_candidate props.
Proof.
  unfold call_candidate. by rewrite !own_prop_set_prop_ne.
Qed.

End ObjectFacts.

Section EnricherMore.

Variable Client : Type.
Variable autoload : Client → value → autoload_options → completion (option Abi).
Variable decodeFunctionData : Abi → string → completion DecodedFunctionData.
Variable client : Client.

Local Abbreviation enrichArgs'' := (enrichArgs Client autoload decodeFunctionData).
Local Abbreviation enriched'' := (enriched autoload decodeFunctionData client).
Local Abbreviation enrich_object'' :=
  (enrich_object Client autoload decodeFunctionData client).

(** The object branch returns the object itself or the object with
    [decodedCall] set. *)
Lemma enrich_object_cases props :
  enrich_object'' props = VObject props
  ∨ ∃ target d D,
      call_candidate props = Some (target, d)
      ∧ decode_inner Client autoload decodeFunctionData client props target d
        = Normal (Some (VObject (set_prop props "decodedCall" D)))
      ∧ enrich_object'' props = VObject (set_prop props "decodedCall" D)
      ∧ ∀ props', decode_inner Client autoload decodeFunctionData client props' target d
                  = Normal (Some (VObject (set_prop props' "decodedCall" D))).
Proof.
  unfold enrich_object. destruct (call_candidate props) as [[target d]|]; [|by left].
  unfold decode_inner.
  destruct (autoload client target provider_only) as [[abi|]|e] eqn:Ha; simpl; auto.
  destruct (decodeFunctionData abi d) as [decoded|e] eqn:Hd; simpl; auto.
  right.
  exists target, d,
    (VDecodedCall (dfd_functionName decoded) (dfd_args decoded)
       (inputs_of (find (is_function_named (dfd_functionName decoded)) abi))).
  rewrite Ha. simpl. rewrite Hd. by split_and!.
Qed.

Lemma enrich_object_idem props props' :
  enrich_object'' props = VObject props' → enrich_object'' props' = VObject props'.
Proof.
  destruct (enrich_object_cases props) as [Hsame|(target & d & D & Hc & _ & -> & Hd)].
  - intros Heq. rewrite Hsame in Heq. by injection Heq as <-.
  - intros [= <-]. unfold enrich_object.
    rewrite call_candidate_set_decodedCall, Hc, Hd. by rewrite set_prop_set_prop.
Qed.

Lemma enrich_object_is_object props : ∃ props', enrich_object'' props = VObject props'.
Proof.
  destruct (enrich_object_cases props) as [->|(target & d & D & _ & _ & -> & _)]; eauto.
Qed.

Lemma enriched_idem v : enriched'' (enriched'' v) = enriched'' v.
Proof.
  induction v as [elems IH|v Hv] using value_array_ind.
  - simpl. f_equal. induction IH as [|a l Ha _ IHl]; simpl; [done|]. by rewrite Ha, IHl.
  - destruct v; try done.
    + by destruct (Hv elems).
    + simpl. destruct (enrich_object_is_object props) as [props' Hp].
      rewrite Hp. simpl. by apply (enrich_object_idem props).
Qed.

Lemma enriched_no_candidates v : no_candidates v = true → enriched'' v = v.
Proof.
  induction v as [elems IH|v Hv] using value_array_ind.
  - simpl. intros H. f_equal.
    induction IH as [|a l Ha _ IHl]; simpl in *; [done|].
    apply andb_true_iff in H as [H1 H2]. by rewrite Ha, IHl.
  - destruct v; try done.
    + by destruct (Hv elems).
    + simpl. unfold enrich_object. by destruct (call_candidate props).
Qed.

(** X8: the decode query never rejects: an exception of the resolver or
    of the decoder is caught and turned into [null].  The query function
    returns [null] whenever the query is not enabled (no record, no
    client, a falsy sender, an empty or "0x" call data), whatever the
    resolver and the decoder would answer, and whenever the resolver
    throws or finds no interface for the sender or the decoder throws on
    the call data.  It yields a decoded call only when the query is
    enabled, the resolver returns an interface for the sender and the
    decoder decodes the call data against it; and then, the nested
    lookups having returned or thrown, it does yield one. *)
Theorem queryFn_never_rejects
    (latency : list value → nat → nat) (cl : option Client)
    (parsedUserOp : option UserOpV06) (chainId : Z) :
  (∀ e, queryFn autoload decodeFunctionData latency cl parsedUserOp chainId ≠ Rejected e)
  ∧ (enabled parsedUserOp cl = false →
     queryFn autoload decodeFunctionData latency cl parsedUserOp chainId = Fulfilled None)
  ∧ (∀ userOp c,
       parsedUserOp = Some userOp → cl = Some c →
       (∃ e, autoload c (sender userOp) (env_loaders_follow_proxies chainId) = Throw e)
       ∨ autoload c (sender userOp) (env_loaders_follow_proxies chainId) = Normal None
       ∨ (∃ abi e, autoload c (sender userOp) (env_loaders_follow_proxies chainId)
                   = Normal (Some abi)
                   ∧ decodeFunctionData abi (callData userOp) = Throw e) →
       queryFn autoload decodeFunctionData latency cl parsedUserOp chainId = Fulfilled None)
  ∧ ((∃ r, queryFn autoload decodeFunctionData latency cl parsedUserOp chainId
           = Fulfilled (Some r)) ↔
     enabled parsedUserOp cl = true
     ∧ ∃ userOp c abi decoded,
         parsedUserOp = Some userOp ∧ cl = Some c
         ∧ autoload c (sender userOp) (env_loaders_follow_proxies chainId)
           = Normal (Some abi)
         ∧ decodeFunctionData abi (callData userOp) = Normal decoded).
Proof.
  unfold queryFn, enabled.
  destruct parsedUserOp as [userOp|]; cycle 1.
  { split_and!; [done|done|done|]. split; [by intros [? ?]|by intros [? _]]. }
  destruct cl as [c|]; cycle 1.
  { split_and!; [done|done|done|]. split; [by intros [? ?]|by intros [? _]]. }
  destruct (truthy (sender userOp)); cycle 1.
  { split_and!; [done|done|done|]. split; [by intros [? ?]|by intros [? _]]. }
  destruct (truthy_string (callData userOp)); cycle 1.
  { split_and!; [done|done|done|]. split; [by intros [? ?]|by intros [? _]]. }
  destruct (String.eqb (callData userOp) "0x"); simpl.
  { split_and!; [done|done|done|]. split; [by intros [? ?]|by intros [? _]]. }
  unfold queryFn_body.
  destruct (autoload c (sender userOp) (env_loaders_follow_proxies chainId))
    as [[abi|]|e] eqn:Ha.
  - destruct (decodeFunctionData abi (callData userOp)) as [decoded|e] eqn:Hd.
    + assert (∃ r, match dfd_args decoded with
                 | Some decoded_args =>
                     match enrichArgs Client autoload decodeFunctionData latency c
                             decoded_args with
                     | Fulfilled a =>
                         Fulfilled (Some (Build_DecodedCallWithTypes
                           (dfd_functionName decoded) (Some a)
                           (inputs_of (find (is_function_named (dfd_functionName decoded))
                                         abi))))
                     | Rejected e => Rejected e
                     | Pending => Pending
                     end
                 | None =>
                     Fulfilled (Some (Build_DecodedCallWithTypes
                       (dfd_functionName decoded) None
                       (inputs_of (find (is_function_named (dfd_functionName decoded))
                                     abi))))
                 end = Fulfilled (Some r)) as [r Hr].
      { destruct (dfd_args decoded); [rewrite enrichArgs_fulfilled|]; by eexists. }
      rewrite Hr. split_and!; [done|done| |].
      * intros u c' [= <-] [= <-] Hfail. rewrite Ha in Hfail.
        destruct Hfail as [[e He]|[Hn|(abi' & e & Ha' & Hd')]]; try done.
        injection Ha' as <-. by rewrite Hd in Hd'.
      * split; [|by exists r]. intros _. split; [done|].
        by exists userOp, c, abi, decoded.
    + split_and!; [done|done|done|]. split; [by intros [? ?]|].
      intros [_ (u & c' & abi' & decoded' & [= <-] & [= <-] & Ha' & Hd')].
      rewrite Ha in Ha'. injection Ha' as <-. by rewrite Hd in Hd'.
  - split_and!; [done|done|done|]. split; [by intros [? ?]|].
    intros [_ (u & c' & abi' & decoded' & [= <-] & [= <-] & Ha' & _)].
    by rewrite Ha in Ha'.
  - split_and!; [done|done|done|]. split; [by intros [? ?]|].
    intros [_ (u & c' & abi' & decoded' & [= <-] & [= <-] & Ha' & _)].
    by rewrite Ha in Ha'.
Qed.

(** X9: arguments among which no object passes the nested-call test, at
    any depth through arrays, come back exactly as they were, whatever
    the resolver and the decoder would answer; plain addresses and byte
    strings passed as separate arguments are never decoded. *)
Theorem arguments_without_call_objects_are_untouched
    (latency : list value → nat → nat) (args : list value) :
  forallb no_candidates args = true →
  enrichArgs'' latency client args = Fulfilled args.
Proof.
  intros H. rewrite enrichArgs_fulfilled. f_equal.
  induction args as [|a l IH]; simpl in *; [done|].
  apply andb_true_iff in H as [H1 H2]. by rewrite enriched_no_candidates, IH.
Qed.

(** X10: enrichment is idempotent: enriching an already enriched argument
    list returns it unchanged, under any completion order. *)
Theorem enrichment_is_idempotent
    (latency latency' : list value → nat → nat) (args res : list value) :
  enrichArgs'' latency client args = Fulfilled res →
  enrichArgs'' latency' client res = Fulfilled res.
Proof.
  rewrite !enrichArgs_fulfilled. intros [= <-]. f_equal.
  induction args as [|a l IH]; simpl; [done|]. by rewrite enriched_idem, IH.
Qed.

(** X11: an object argument comes back as an object that keeps every
    original property other than [decodedCall] with its value, and keeps
    the order of its properties; a [decodedCall] property is either
    overwritten in place or appended as the last property. *)
Theorem enrichment_keeps_original_properties
    (latency : list value → nat → nat) (props : list (string * value)) :
  ∃ props',
    enrichArgs'' latency client [VObject props] = Fulfilled [VObject props']
    ∧ (∀ k, k ≠ "decodedCall" → own_prop props' k = own_prop props k)
    ∧ (keys props' = keys props
       ∨ has_own props "decodedCall" = false
         ∧ keys props' = keys props ++ ["decodedCall"]).
Proof.
  rewrite enrichArgs_fulfilled. simpl.
  destruct (enrich_object_cases props) as [->|(target & d & D & _ & _ & -> & _)].
  - exists props. split_and!; [done|done|by left].
  - eexists. split_and!; [done| |].
    + intros k Hk. by apply own_prop_set_prop_ne.
    + rewrite keys_set_prop. destruct (has_own props "decodedCall"); auto.
Qed.

End EnricherMore.

(** X8 where the resolver throws for the sender, and where the sender has
    an interface that does not know the selector. *)
Lemma queryFn_never_rejects_witness :
  queryFn Demo.autoload Demo.decodeFunctionData (λ _ i, i) (Some tt)
    (Some (Build_UserOpV06 (VString "0xbb") 0 "0x" "0xa9059cbb" 0 0 0 0 0 "0x" "0x")) 1
  = Fulfilled None
  ∧ queryFn Demo.autoload Demo.decodeFunctionData (λ _ i, i) (Some tt)
      (Some (Build_UserOpV06 (VString "0xaa") 0 "0x" "0xffffffff" 0 0 0 0 0 "0x" "0x")) 1
    = Fulfilled None.
Proof.
  split.
  - apply (proj1 (proj2 (proj2 (queryFn_never_rejects unit Demo.autoload
             Demo.decodeFunctionData (λ _ i, i) (Some tt)
             (Some (Build_UserOpV06 (VString "0xbb") 0 "0x" "0xa9059cbb" 0 0 0 0 0
                      "0x" "0x")) 1)))
           _ tt eq_refl eq_refl).
    left. by eexists.
  - apply (proj1 (proj2 (proj2 (queryFn_never_rejects unit Demo.autoload
             Demo.decodeFunctionData (λ _ i, i) (Some tt)
             (Some (Build_UserOpV06 (VString "0xaa") 0 "0x" "0xffffffff" 0 0 0 0 0
                      "0x" "0x")) 1)))
           _ tt eq_refl eq_refl).
    right. right. by exists Demo.erc20, (Error "no matching selector").
Defined.

(** X9 on the arguments of [execute(address, uint256, bytes)]: the address
    has a known interface and the bytes would decode, yet nothing is
    attached. *)
Lemma arguments_without_call_objects_are_untouched_witness :
  enrichArgs unit Demo.autoload Demo.decodeFunctionData (λ _ i, i) tt
    [VString "0xaa"; VBigInt 0; VString "0xa9059cbb"]
  = Fulfilled [VString "0xaa"; VBigInt 0; VString "0xa9059cbb"].
Proof.
  apply (arguments_without_call_objects_are_untouched unit Demo.autoload
           Demo.decodeFunctionData tt).
  reflexivity.
Defined.

(** X10 on a list with a decodable call. *)
Lemma enrichment_is_idempotent_witness :
  enrichArgs unit Demo.autoload Demo.decodeFunctionData (λ _ i, (3 - i)%nat) tt
    [VBigInt 1; Demo.annotated "0xaa" "0xa9059cbb" Demo.transfer_call]
  = Fulfilled [VBigInt 1; Demo.annotated "0xaa" "0xa9059cbb" Demo.transfer_call].
Proof.
  apply (enrichment_is_idempotent unit Demo.autoload Demo.decodeFunctionData tt
           (λ _ i, i) (λ _ i, (3 - i)%nat)
           [VBigInt 1; Demo.call "0xaa" "0xa9059cbb"]).
  vm_compute. reflexivity.
Defined.

(* ================================================================== *)
(** * From the form to the decode query *)
(* ================================================================== *)

(** X12: in fields mode, for a form that yields a record, the decode (and
    simulation) query is enabled exactly when a client exists, the sender
    input is not empty and the call-data input, once trimmed, is neither
    empty nor "0x"; the call data of the record is then the trimmed
    input. *)
Theorem decode_enabled_from_form {Client : Type}
    (JSON_parse : string → option value) (st : FormState) (op : UserOpV06)
    (cl : Client) :
  inputMode st = fields → parsedUserOp JSON_parse st = Some op →
  enabled (Some op) (Some cl)
  = negb (String.eqb (in_sender st) "")
    && negb (String.eqb (trim (in_callData st)) "")
    && negb (String.eqb (trim (in_callData st)) "0x")
  ∧ (enabled (Some op) (Some cl) = true → callData op = trim (in_callData st))
  ∧ enabled (Some op) (@None Client) = false.
Proof.
  intros Hmode Hop. rewrite (parsedUserOp_fields_assemble _ _ Hmode) in Hop.
  destruct (assemble_cases (VString (in_sender st))
       (parseValue <$> [in_nonce st; in_callGasLimit st; in_verificationGasLimit st;
                        in_preVerificationGas st; in_maxFeePerGas st;
                        in_maxPriorityFeePerGas st])
       (parseHexValue <$> [in_initCode st; in_callData st; in_paymasterAndData st;
                           in_signature st]))
    as [(op' & Hop' & Hs & _ & Hh)|[[e He] _]];
    [done|done| |by rewrite He in Hop].
  rewrite Hop' in Hop. injection Hop as ->.
  apply Forall2_cons_1 in Hh as [_ Hh]. apply Forall2_cons_1 in Hh as [Hcd _].
  unfold enabled. rewrite Hs. cbn [truthy].
  assert (truthy_string (in_sender st) = negb (String.eqb (in_sender st) "")) as ->
    by (by destruct (in_sender st)).
  revert Hcd. unfold parseHexValue.
  destruct (String.eqb (in_sender st) "");
    (destruct (trim (in_callData st)) as [|c r] eqn:E;
      [by intros [= <-]|]);
    cbn [truthy_string negb orb];
    (destruct (String.eqb_spec (String c r) "0x") as [Heq|Hne];
      [by intros [= <-]|]);
    (destruct (isHex (String c r)); [|done]); intros [= <-];
    (destruct (String.eqb_spec (String c r) "0x"); [done|]);
    by split_and!.
Qed.

(** X12 on a form with a sender and call data. *)
Lemma decode_enabled_from_form_witness :
  enabled (Some (Build_UserOpV06 (VString "0xaa") 0 "0x" "0xa9059cbb" 0 0 0 0 0 "0x" "0x"))
    (Some tt)
  = true.
Proof.
  exact (proj1 (decode_enabled_from_form (λ _, None)
           (Build_FormState fields "" "0xaa" "" "0x" " 0xa9059cbb " "" "" "" "" "" "0x" "0x")
           (Build_UserOpV06 (VString "0xaa") 0 "0x" "0xa9059cbb" 0 0 0 0 0 "0x" "0x")
           tt eq_refl eq_refl)).
Defined.
